(** * A shallow embedding of [jps::shared_ptr] (src/shared_ptr.h)

    The header implements a lock-free atomic shared pointer on top of two
    packed 64-bit words: the paired counter (two 32-bit lanes) and the counted
    pointer (a 16-bit counter above a 48-bit pointer).  Every [std::atomic]
    access is one step on the 64-bit word it guards; what other threads do
    between two accesses of the same call is an explicit interference
    function, and a weak compare-exchange carries a flag saying whether it
    fails spuriously. *)

From Stdlib Require Import ZArith Lia List Bool.
From stdpp Require Import base option gmap.

Local Open Scope Z_scope.

(** ** Fixed-width integers *)

(** [uint64_t], [uint32_t], [uint16_t]: the value modulo the width. *)
Definition u64 (x : Z) : Z := x mod 2 ^ 64.
Definition u32 (x : Z) : Z := x mod 2 ^ 32.
Definition u16 (x : Z) : Z := x mod 2 ^ 16.

(** [int32_t], [int16_t]: the two's-complement reading of the low bits.
    Conversions and arithmetic that leave the range wrap, as they do on the
    targets the header is written for. *)
Definition i32 (x : Z) : Z := (x + 2 ^ 31) mod 2 ^ 32 - 2 ^ 31.
Definition i16 (x : Z) : Z := (x + 2 ^ 15) mod 2 ^ 16 - 2 ^ 15.

Definition word64 (w : Z) : Prop := 0 <= w < 2 ^ 64.
Definition int32 (n : Z) : Prop := - 2 ^ 31 <= n < 2 ^ 31.
Definition int16 (n : Z) : Prop := - 2 ^ 15 <= n < 2 ^ 15.

(** What the other threads do to a shared object between two atomic accesses
    of the modelled call. *)
Definition quiet {A : Type} : A -> A := fun a => a.

(** One attempt of a weak compare-exchange: the interference that precedes it
    and whether the attempt fails spuriously. *)
Record attempt (A : Type) : Type := Attempt { before : A -> A; spurious : bool }.
Arguments Attempt {A} _ _.
Arguments before {A} _ _.
Arguments spurious {A} _.

(** The state reached when only the interference of [sched] has run. *)
Definition interfere {A : Type} (sched : list (attempt A)) (a : A) : A :=
  fold_left (fun s t => before t s) sched a.

(** ** [std::atomic<uint64_t>] *)

Module atomic.

(** Every operation maps the stored word to its result and the new word. *)
Definition load (w : Z) : Z := w.

Definition exchange (desired : Z) (w : Z) : Z * Z := (w, desired).

Definition fetch_add (arg : Z) (w : Z) : Z * Z := (w, u64 (w + arg)).

Definition fetch_sub (arg : Z) (w : Z) : Z * Z := (w, u64 (w - arg)).

(** [compare_exchange_strong (expected, desired)]: the result, the new value
    of [expected] and the new word. *)
Definition compare_exchange_strong (expected desired : Z) (w : Z) : bool * Z * Z :=
  if w =? expected then (true, expected, desired) else (false, w, w).

(** The weak form may fail although the word equals [expected]. *)
Definition compare_exchange_weak (spur : bool) (expected desired : Z) (w : Z)
  : bool * Z * Z :=
  if spur then (false, w, w) else compare_exchange_strong expected desired w.


Definition store (desired : Z) (w : Z) : Z := desired.

Definition fetch_and (arg : Z) (w : Z) : Z * Z := (w, Z.land w arg).

Definition fetch_or (arg : Z) (w : Z) : Z * Z := (w, Z.lor w arg).

Definition fetch_xor (arg : Z) (w : Z) : Z * Z := (w, Z.lxor w arg).

End atomic.

(** ** [struct paired_counter] *)

Module paired_counter.

(** The union of [struct single { uint32_t cnt2; int32_t cnt1; }] and
    [uint64_t word_]: a value is its 64-bit word, [cnt2] the low half and
    [cnt1] the high half. *)

(** [paired_counter( int32_t c1, uint32_t c2 )] *)
Definition make (c1 c2 : Z) : Z := u32 c1 * 2 ^ 32 + u32 c2.

Definition get_cnt1 (w : Z) : Z := i32 (w / 2 ^ 32).
Definition get_cnt2 (w : Z) : Z := u32 w.
Definition word (w : Z) : Z := w.

(** [operator+( const paired_counter& )] and [operator-( const paired_counter& )] *)
Definition add (l r : Z) : Z :=
  make (i32 (get_cnt1 l + get_cnt1 r)) (u32 (get_cnt2 l + get_cnt2 r)).
Definition sub (l r : Z) : Z :=
  make (i32 (get_cnt1 l - get_cnt1 r)) (u32 (get_cnt2 l - get_cnt2 r)).

(** [operator+=] and [operator-=], on the left operand. *)
Definition add_assign (l r : Z) : Z :=
  make (i32 (get_cnt1 l + get_cnt1 r)) (u32 (get_cnt2 l + get_cnt2 r)).
Definition sub_assign (l r : Z) : Z :=
  make (i32 (get_cnt1 l - get_cnt1 r)) (u32 (get_cnt2 l - get_cnt2 r)).

(** [operator+( paired_counter&& r )] is [r += *this] and
    [operator-( paired_counter&& r )] is [r -= *this]. *)
Definition add_rvalue (l r : Z) : Z := add_assign r l.
Definition sub_rvalue (l r : Z) : Z := sub_assign r l.

(** [operator==] compares the words; the order compares both lanes. *)
Definition eqb (l r : Z) : bool := word l =? word r.
Definition neqb (l r : Z) : bool := negb (word l =? word r).
Definition gt (l r : Z) : bool := (get_cnt1 r <? get_cnt1 l) && (get_cnt2 r <? get_cnt2 l).
Definition ge (l r : Z) : bool := (get_cnt1 r <=? get_cnt1 l) && (get_cnt2 r <=? get_cnt2 l).
Definition lt (l r : Z) : bool := (get_cnt1 l <? get_cnt1 r) && (get_cnt2 l <? get_cnt2 r).
Definition le (l r : Z) : bool := (get_cnt1 l <=? get_cnt1 r) && (get_cnt2 l <=? get_cnt2 r).

(** [set_counter1( int32_t c )] and [set_counter2( uint32_t c )] write one
    field of [single_]. *)
Definition set_counter1 (c : Z) (w : Z) : Z := u32 c * 2 ^ 32 + u32 w.
Definition set_counter2 (c : Z) (w : Z) : Z := u32 (w / 2 ^ 32) * 2 ^ 32 + u32 c.

End paired_counter.

(** ** [struct atomic_paired_counter] *)

Module atomic_paired_counter.

Definition load (counter_ : Z) : Z := atomic.load counter_.

Definition fetch_add (arg : Z) (counter_ : Z) : Z * Z :=
  atomic.fetch_add (paired_counter.word arg) counter_.

Definition fetch_sub (arg : Z) (counter_ : Z) : Z * Z :=
  atomic.fetch_sub (paired_counter.word arg) counter_.

Definition compare_exchange_weak (spur : bool) (expected desired : Z) (counter_ : Z)
  : bool * Z * Z :=
  atomic.compare_exchange_weak spur (paired_counter.word expected)
    (paired_counter.word desired) counter_.

Definition compare_exchange_strong (expected desired : Z) (counter_ : Z)
  : bool * Z * Z :=
  atomic.compare_exchange_strong (paired_counter.word expected)
    (paired_counter.word desired) counter_.

(** [fetch_transfer( int32_t arg )] *)
Definition fetch_transfer (arg : Z) (counter_ : Z) : Z * Z :=
  if 0 <=? arg
  then fetch_add (paired_counter.make (i32 (- arg)) (u32 arg)) counter_
  else fetch_sub (paired_counter.make arg (u32 (i32 (- arg)))) counter_.

(** Where a member passes an integer for a [paired_counter] parameter, the
    private constructor [paired_counter( uint64_t word )] converts it:
    an [int32_t] is sign-extended to the word, a [uint32_t] zero-extended. *)
Definition of_int32 (n : Z) : Z := u64 (i32 n).
Definition of_uint32 (n : Z) : Z := u64 (u32 n).

(** [compare_exchange_weak_c1( int32_t& expected, int32_t desired )]: the
    loop after the first load, one schedule entry per attempt.  [None]: the
    schedule ended before the loop did. *)
Fixpoint weak_c1_loop (sched : list (attempt Z)) (cur_pair expected desired : Z)
  (counter_ : Z) : option (bool * Z * Z) :=
  match sched with
  | [] => None
  | t :: sched' =>
      let '(ok, cur_pair', counter') :=
        compare_exchange_weak (spurious t) cur_pair (of_int32 desired)
          (before t counter_) in
      if ok then Some (true, expected, counter')
      else if negb (paired_counter.get_cnt1 cur_pair' =? expected)
           then Some (false, paired_counter.get_cnt1 cur_pair', counter')
           else weak_c1_loop sched' cur_pair' expected desired counter'
  end.

Definition compare_exchange_weak_c1 (sched : list (attempt Z)) (expected desired : Z)
  (counter_ : Z) : option (bool * Z * Z) :=
  let cur_pair := load counter_ in
  if negb (paired_counter.get_cnt1 cur_pair =? expected)
  then Some (false, paired_counter.get_cnt1 cur_pair, counter_)
  else weak_c1_loop sched cur_pair expected desired counter_.

(** [compare_exchange_weak_c2( uint32_t& expected, uint32_t desired )] *)
Fixpoint weak_c2_loop (sched : list (attempt Z)) (cur_pair expected desired : Z)
  (counter_ : Z) : option (bool * Z * Z) :=
  match sched with
  | [] => None
  | t :: sched' =>
      let '(ok, cur_pair', counter') :=
        compare_exchange_weak (spurious t) cur_pair (of_uint32 desired)
          (before t counter_) in
      if ok then Some (true, expected, counter')
      else if negb (paired_counter.get_cnt2 cur_pair' =? expected)
           then Some (false, paired_counter.get_cnt2 cur_pair', counter')
           else weak_c2_loop sched' cur_pair' expected desired counter'
  end.

Definition compare_exchange_weak_c2 (sched : list (attempt Z)) (expected desired : Z)
  (counter_ : Z) : option (bool * Z * Z) :=
  let cur_pair := load counter_ in
  if negb (paired_counter.get_cnt2 cur_pair =? expected)
  then Some (false, paired_counter.get_cnt2 cur_pair, counter_)
  else weak_c2_loop sched cur_pair expected desired counter_.

(** [compare_exchange_strong_c1( int32_t& expected, int32_t desired )];
    [env] runs between the load and the compare-exchange. *)
Definition compare_exchange_strong_c1 (env : Z -> Z) (expected desired : Z)
  (counter_ : Z) : bool * Z * Z :=
  let cur_pair := load counter_ in
  if negb (paired_counter.get_cnt1 cur_pair =? expected)
  then (false, paired_counter.get_cnt1 cur_pair, counter_)
  else
    let '(ok, _, counter') :=
      compare_exchange_strong cur_pair (of_int32 desired) (env counter_) in
    (ok, expected, counter').

(** [compare_exchange_strong_c2( uint32_t& expected, uint32_t desired )] *)
Definition compare_exchange_strong_c2 (env : Z -> Z) (expected desired : Z)
  (counter_ : Z) : bool * Z * Z :=
  let cur_pair := load counter_ in
  if negb (paired_counter.get_cnt2 cur_pair =? expected)
  then (false, paired_counter.get_cnt2 cur_pair, counter_)
  else
    let '(ok, _, counter') :=
      compare_exchange_strong cur_pair (of_uint32 desired) (env counter_) in
    (ok, expected, counter').

(** The overloads whose [expected] is a whole [paired_counter&]:
    [compare_exchange_weak_c1( paired_counter& expected, int32_t desired )]
    and its [_c2] twin build the desired pair from both lanes. *)
Definition compare_exchange_weak_c1_pair (spur : bool) (expected desired : Z)
  (counter_ : Z) : bool * Z * Z :=
  compare_exchange_weak spur expected
    (paired_counter.make desired (paired_counter.get_cnt2 expected)) counter_.

Definition compare_exchange_weak_c2_pair (spur : bool) (expected desired : Z)
  (counter_ : Z) : bool * Z * Z :=
  compare_exchange_weak spur expected
    (paired_counter.make (paired_counter.get_cnt1 expected) desired) counter_.


Definition store (desired : Z) (counter_ : Z) : Z :=
  atomic.store (paired_counter.word desired) counter_.

Definition exchange (desired : Z) (counter_ : Z) : Z * Z :=
  atomic.exchange (paired_counter.word desired) counter_.

(** [compare_exchange_strong_c1( paired_counter& expected, int32_t desired )]:
    one turn of its [for(;;)].  [inl]: the call returns with this result,
    [expected] and counter; [inr]: the loop goes round again with this
    [expected] and counter.  [env] runs before the compare-exchange. *)
Definition strong_c1_pair_turn (env : Z -> Z) (expected desired : Z) (counter_ : Z)
  : (bool * Z * Z) + (Z * Z) :=
  let cur_pair := expected in
  let new_pair := paired_counter.make desired (paired_counter.get_cnt2 expected) in
  let '(ok, cur_pair', counter') :=
    compare_exchange_strong cur_pair new_pair (env counter_) in
  if ok then inl (true, expected, counter')
  else if negb (paired_counter.get_cnt1 cur_pair' =? paired_counter.get_cnt1 expected)
       then inl (false, cur_pair', counter')
       else inr (expected, counter').

Fixpoint compare_exchange_strong_c1_pair (sched : list (Z -> Z)) (expected desired : Z)
  (counter_ : Z) : option (bool * Z * Z) :=
  match sched with
  | [] => None
  | env :: sched' =>
      match strong_c1_pair_turn env expected desired counter_ with
      | inl r => Some r
      | inr (expected', counter') =>
          compare_exchange_strong_c1_pair sched' expected' desired counter'
      end
  end.

End atomic_paired_counter.

(** ** [struct counted_ptr] *)

Module counted_ptr.

Definition ptr_mask : Z := Z.shiftl 1 48 - 1.
Definition ctr_mask : Z := u64 (Z.shiftl (Z.lnot 0) 48).

(** [make_word( int16_t counter )]: widened with its sign, then shifted. *)
Definition make_word_ctr (counter : Z) : Z := u64 (Z.shiftl (u64 (i16 counter)) 48).

(** [make_word( T* ptr )]; the assertion wants [ptr & ctr_mask == 0]. *)
Definition make_word_ptr (ptr : Z) : Z := ptr.

Definition make_word (counter ptr : Z) : Z :=
  Z.lor (make_word_ctr counter) (make_word_ptr ptr).

(** [counter()] is the fourth 16-bit slot of the word. *)
Definition get_ctr (word_ : Z) : Z := i16 (Z.shiftr word_ 48).

Definition set_ctr (c : Z) (word_ : Z) : Z :=
  Z.lor (Z.shiftl (u16 c) 48) (Z.land word_ ptr_mask).

Definition get_ptr (word_ : Z) : Z := Z.land word_ (Z.shiftl 1 48 - 1).

Definition set_ptr (p : Z) (word_ : Z) : Z := make_word (get_ctr word_) p.

(** [counter()++] and [counter()--] on a local copy. *)
Definition incr_ctr (word_ : Z) : Z := set_ctr (i16 (get_ctr word_ + 1)) word_.
Definition decr_ctr (word_ : Z) : Z := set_ctr (i16 (get_ctr word_ - 1)) word_.

End counted_ptr.

(** ** [struct atomic_counted_ptr] *)

Module atomic_counted_ptr.

Definition load (word_ : Z) : Z := atomic.load word_.

Definition exchange (desired : Z) (word_ : Z) : Z * Z := atomic.exchange desired word_.

Definition compare_exchange_strong (expected desired : Z) (word_ : Z) : bool * Z * Z :=
  atomic.compare_exchange_strong expected desired word_.

Definition compare_exchange_weak (spur : bool) (expected desired : Z) (word_ : Z)
  : bool * Z * Z :=
  atomic.compare_exchange_weak spur expected desired word_.

Definition fetch_add (arg : Z) (word_ : Z) : Z * Z :=
  atomic.fetch_add (counted_ptr.make_word_ctr arg) word_.

Definition fetch_sub (arg : Z) (word_ : Z) : Z * Z :=
  atomic.fetch_sub (counted_ptr.make_word_ctr arg) word_.






Definition store (desired : Z) (word_ : Z) : Z := atomic.store desired word_.

Definition get_ptr (word_ : Z) : Z := counted_ptr.get_ptr (atomic.load word_).
Definition get_ctr (word_ : Z) : Z := counted_ptr.get_ctr (atomic.load word_).

(** [fetch_and] masks with [make_word( arg, ptr_mask )], the other two with
    [make_word( arg )]. *)
Definition fetch_and (arg : Z) (word_ : Z) : Z * Z :=
  atomic.fetch_and (counted_ptr.make_word arg counted_ptr.ptr_mask) word_.

Definition fetch_or (arg : Z) (word_ : Z) : Z * Z :=
  atomic.fetch_or (counted_ptr.make_word_ctr arg) word_.

Definition fetch_xor (arg : Z) (word_ : Z) : Z * Z :=
  atomic.fetch_xor (counted_ptr.make_word_ctr arg) word_.

(** [operator+=], [operator-=], [operator&=], [operator|=], [operator^=]:
    the [int16_t] returned and the new word. *)
Definition add_assign (arg : Z) (word_ : Z) : Z * Z :=
  let '(old, word') := fetch_add arg word_ in (i16 (counted_ptr.get_ctr old + arg), word').

Definition sub_assign (arg : Z) (word_ : Z) : Z * Z :=
  let '(old, word') := fetch_sub arg word_ in (i16 (counted_ptr.get_ctr old - arg), word').




End atomic_counted_ptr.

(** ** [struct sptr_header_base]: the control block *)

Module sptr_header_base.

Record t : Type := Header {
  references_ : Z;        (* atomic_paired_counter: temporary and global references *)
  weak_references_ : Z;   (* atomic_paired_counter: weak references *)
  pointer_ : Z            (* the object pointer *)
}.

(** The two pure virtual hooks; a call is recorded, what a subclass does in
    it is outside the base class. *)
Inductive hook : Type :=
| _delete_object (self : Z)
| _delete_header.

Definition set_references (r : Z) (h : t) : t :=
  {| references_ := r; weak_references_ := weak_references_ h; pointer_ := pointer_ h |}.

Definition set_weak_references (r : Z) (h : t) : t :=
  {| references_ := references_ h; weak_references_ := r; pointer_ := pointer_ h |}.

(** The constructor: [references_{{ 0, 1 }}, weak_references_{ 0u }]. *)
Definition make (ptr : Z) : t :=
  {| references_ := paired_counter.make 0 1;
     weak_references_ := u64 0;
     pointer_ := ptr |}.

Definition get_ptr (h : t) : Z := pointer_ h.

(** [acquire( paired_counter count )]; [acquire()] adds [{ 0, 1 }]. *)
Definition acquire (count : Z) (h : t) : t :=
  set_references (snd (atomic_paired_counter.fetch_add count (references_ h))) h.

Definition acquire1 (h : t) : t :=
  set_references
    (snd (atomic_paired_counter.fetch_add (paired_counter.make 0 1) (references_ h))) h.

(** [hold( int16_t count )] and [unhold( int16_t count )]: the argument is
    converted to the 16-bit parameter, then sign-extended into
    [paired_counter{ count, 0 }]. *)
Definition hold (count : Z) (h : t) : t :=
  set_references
    (snd (atomic_paired_counter.fetch_add (paired_counter.make (i16 count) 0)
            (references_ h))) h.

Definition unhold (count : Z) (h : t) : t :=
  set_references
    (snd (atomic_paired_counter.fetch_sub (paired_counter.make (i16 count) 0)
            (references_ h))) h.

(** [release( paired_counter count )]: the hooks called, in order, and the
    block afterwards; [env] runs between the subtraction and the load of the
    weak counter. *)
Definition release (env : t -> t) (count : Z) (h : t) : list hook * t :=
  let '(old_ref, refs') := atomic_paired_counter.fetch_sub count (references_ h) in
  let h1 := set_references refs' h in
  if paired_counter.eqb old_ref count then
    let h2 := env h1 in
    if paired_counter.word (atomic_paired_counter.load (weak_references_ h2)) =? 0
    then ([_delete_object (get_ptr h1); _delete_header], h2)
    else ([_delete_object (get_ptr h1)], h2)
  else ([], h1).

(** [weak_lock()]: the do-while loop, entered with the word just read. *)
Fixpoint weak_lock_loop (sched : list (attempt t)) (cur_ref : Z) (h : t)
  : option (bool * t) :=
  if paired_counter.get_cnt2 cur_ref =? 0 then Some (false, h)
  else
    match sched with
    | [] => None
    | a :: sched' =>
        let h1 := before a h in
        let '(ok, cur_ref', refs') :=
          atomic_paired_counter.compare_exchange_weak (spurious a) cur_ref
            (paired_counter.make (paired_counter.get_cnt1 cur_ref)
               (u32 (paired_counter.get_cnt2 cur_ref + 1)))
            (references_ h1) in
        if ok then Some (true, set_references refs' h1)
        else weak_lock_loop sched' cur_ref' (set_references refs' h1)
    end.

Definition weak_lock (sched : list (attempt t)) (h : t) : option (bool * t) :=
  weak_lock_loop sched (atomic_paired_counter.load (references_ h)) h.

Definition acquire_weak (h : t) : t :=
  set_weak_references
    (snd (atomic_paired_counter.fetch_add (paired_counter.make 0 1) (weak_references_ h))) h.

(** [release_weak( paired_counter count )]; the strong counter is only read
    when the weak one was [{ 0, 1 }]. *)
Definition release_weak (env : t -> t) (count : Z) (h : t) : list hook * t :=
  let '(old_weak, weak') := atomic_paired_counter.fetch_sub count (weak_references_ h) in
  let h1 := set_weak_references weak' h in
  if paired_counter.eqb old_weak (paired_counter.make 0 1) then
    let h2 := env h1 in
    if paired_counter.word (atomic_paired_counter.load (references_ h2)) =? 0
    then ([_delete_header], h2)
    else ([], h2)
  else ([], h1).

Definition use_count (h : t) : Z :=
  paired_counter.get_cnt2 (atomic_paired_counter.load (references_ h)).

Definition weak_count (h : t) : Z :=
  paired_counter.get_cnt2 (atomic_paired_counter.load (weak_references_ h)).

End sptr_header_base.

(** ** The free store

    Control blocks live at addresses; address [0] is [nullptr].  A call
    through a pointer at which no block lives has no defined result
    ([None]).  The hook calls made so far are kept with the block address. *)

Record memory : Type := Memory {
  blocks : gmap Z sptr_header_base.t;
  calls : list (Z * sptr_header_base.hook)
}.

(** [new sptr_header_extern{ ptr }] placed at [at_]. *)
Definition allocate (at_ : Z) (h : sptr_header_base.t) (m : memory) : memory :=
  {| blocks := <[at_ := h]> (blocks m); calls := calls m |}.

(** A member call that only changes the counters. *)
Definition update_block (p : Z) (f : sptr_header_base.t -> sptr_header_base.t)
  (m : memory) : option memory :=
  h ← blocks m !! p;
  Some {| blocks := <[p := f h]> (blocks m); calls := calls m |}.

(** A member call that may reach the hooks. *)
Definition call_block (p : Z)
  (f : sptr_header_base.t -> list sptr_header_base.hook * sptr_header_base.t)
  (m : memory) : option memory :=
  h ← blocks m !! p;
  Some {| blocks := <[p := snd (f h)]> (blocks m);
          calls := calls m ++ map (pair p) (fst (f h)) |}.

(** A member call that returns a value and changes nothing. *)
Definition read_block {A : Type} (p : Z) (f : sptr_header_base.t -> A) (m : memory)
  : option A :=
  h ← blocks m !! p; Some (f h).

(** ** [class shared_ptr] *)

Module shared_ptr.

(** A handle is its [cp_header_], a counted pointer to the block. *)

(** [shared_ptr()], [shared_ptr( std::nullptr_t )] *)
Definition null : Z := counted_ptr.make_word 0 0.

(** [shared_ptr( T* ptr )]; [at_] is where [new] puts the block. *)
Definition from_raw (at_ : Z) (ptr : Z) (m : memory) : Z * memory :=
  if negb (ptr =? 0)
  then (counted_ptr.make_word 0 at_, allocate at_ (sptr_header_base.make ptr) m)
  else (counted_ptr.make_word 0 0, m).

(** The private [shared_ptr( sptr_header_base<T>* ctrl )]. *)
Definition from_header (ctrl : Z) : Z := counted_ptr.make_word 0 ctrl.

(** [shared_ptr( const shared_ptr& r )] *)
Definition copy (r : Z) (m : memory) : option (Z * memory) :=
  let cp_header_ := counted_ptr.make_word 0 (counted_ptr.get_ptr r) in
  if negb (counted_ptr.get_ptr cp_header_ =? 0)
  then m' ← update_block (counted_ptr.get_ptr cp_header_) sptr_header_base.acquire1 m;
       Some (cp_header_, m')
  else Some (cp_header_, m).

(** [_release()], which is also the body of [~shared_ptr()]. *)
Definition _release (env : sptr_header_base.t -> sptr_header_base.t)
  (cp_header_ : Z) (m : memory) : option memory :=
  if negb (counted_ptr.get_ptr cp_header_ =? 0)
  then call_block (counted_ptr.get_ptr cp_header_)
         (sptr_header_base.release env
            (paired_counter.make (counted_ptr.get_ctr cp_header_) 1)) m
  else Some m.

Definition destroy (env : sptr_header_base.t -> sptr_header_base.t)
  (cp_header_ : Z) (m : memory) : option memory :=
  _release env cp_header_ m.

(** [reset()] and [reset( T* ptr )]: the new [cp_header_] and the store. *)
Definition reset (env : sptr_header_base.t -> sptr_header_base.t)
  (cp_header_ : Z) (m : memory) : option (Z * memory) :=
  m' ← _release env cp_header_ m;
  Some (counted_ptr.make_word 0 0, m').

Definition reset_raw (env : sptr_header_base.t -> sptr_header_base.t)
  (at_ : Z) (ptr : Z) (cp_header_ : Z) (m : memory) : option (Z * memory) :=
  m' ← _release env cp_header_ m;
  Some (if negb (ptr =? 0)
        then (counted_ptr.make_word 0 at_, allocate at_ (sptr_header_base.make ptr) m')
        else (counted_ptr.make_word 0 0, m')).

Definition get (cp_header_ : Z) (m : memory) : option Z :=
  if negb (counted_ptr.get_ptr cp_header_ =? 0)
  then read_block (counted_ptr.get_ptr cp_header_) sptr_header_base.get_ptr m
  else Some 0.

Definition use_count (cp_header_ : Z) (m : memory) : option Z :=
  if negb (counted_ptr.get_ptr cp_header_ =? 0)
  then read_block (counted_ptr.get_ptr cp_header_) sptr_header_base.use_count m
  else Some 0.

Definition weak_count (cp_header_ : Z) (m : memory) : option Z :=
  if negb (counted_ptr.get_ptr cp_header_ =? 0)
  then read_block (counted_ptr.get_ptr cp_header_) sptr_header_base.weak_count m
  else Some 0.

Definition unique (cp_header_ : Z) (m : memory) : option bool :=
  n ← use_count cp_header_ m; Some (n =? 1).

(** [explicit operator bool()] *)
Definition to_bool (cp_header_ : Z) (m : memory) : option bool :=
  n ← use_count cp_header_ m; Some (negb (n =? 0)).


(** [operator=( const shared_ptr& r )]: the new [cp_header_] and the store. *)
Definition assign (env : sptr_header_base.t -> sptr_header_base.t)
  (cp_header_ r : Z) (m : memory) : option (Z * memory) :=
  if counted_ptr.get_ptr r =? counted_ptr.get_ptr cp_header_ then Some (cp_header_, m)
  else
    m1 ← (if negb (counted_ptr.get_ptr cp_header_ =? 0)
          then call_block (counted_ptr.get_ptr cp_header_)
                 (sptr_header_base.release env
                    (paired_counter.make (counted_ptr.get_ctr cp_header_) 1)) m
          else Some m);
    let cp_header_' := counted_ptr.make_word_ptr (counted_ptr.get_ptr r) in
    if negb (counted_ptr.get_ptr cp_header_' =? 0)
    then m2 ← update_block (counted_ptr.get_ptr cp_header_') sptr_header_base.acquire1 m1;
         Some (cp_header_', m2)
    else Some (cp_header_', m1).

(** [swap( shared_ptr& r )], which is also the move constructor and the move
    assignment: the two [cp_header_] afterwards. *)
Definition swap (cp_header_ r : Z) : Z * Z := (r, cp_header_).

(** [operator==] *)
Definition eqb (cp_header_ r : Z) (m : memory) : option bool :=
  a ← get cp_header_ m; b ← get r m; Some (a =? b).

(** [_acquire()] *)
Definition _acquire (cp_header_ : Z) (m : memory) : option memory :=
  if negb (counted_ptr.get_ptr cp_header_ =? 0)
  then update_block (counted_ptr.get_ptr cp_header_) sptr_header_base.acquire1 m
  else Some m.

(** [make_shared]: the block, placed at [at_], holds the object in its own
    storage at [obj]. *)
Definition make_shared (at_ obj : Z) (m : memory) : Z * memory :=
  (from_header at_, allocate at_ (sptr_header_base.make obj) m).

End shared_ptr.

(** ** [class weak_ptr] *)

Module weak_ptr.

(** [weak_ptr( const shared_ptr<T>& r )], [weak_ptr( const weak_ptr& r )] *)
Definition copy (r : Z) (m : memory) : option (Z * memory) :=
  let cp_header_ := counted_ptr.make_word 0 (counted_ptr.get_ptr r) in
  if negb (counted_ptr.get_ptr cp_header_ =? 0)
  then m' ← update_block (counted_ptr.get_ptr cp_header_) sptr_header_base.acquire_weak m;
       Some (cp_header_, m')
  else Some (cp_header_, m).

(** [~weak_ptr()] *)
Definition destroy (env : sptr_header_base.t -> sptr_header_base.t)
  (cp_header_ : Z) (m : memory) : option memory :=
  if negb (counted_ptr.get_ptr cp_header_ =? 0)
  then call_block (counted_ptr.get_ptr cp_header_)
         (sptr_header_base.release_weak env
            (paired_counter.make (counted_ptr.get_ctr cp_header_) 1)) m
  else Some m.

(** [lock()]: the handle returned and the store. *)
Definition lock (sched : list (attempt sptr_header_base.t)) (cp_header_ : Z)
  (m : memory) : option (Z * memory) :=
  if counted_ptr.get_ptr cp_header_ =? 0 then Some (shared_ptr.null, m)
  else
    h ← blocks m !! counted_ptr.get_ptr cp_header_;
    '(ok, h') ← sptr_header_base.weak_lock sched h;
    let m' := {| blocks := <[counted_ptr.get_ptr cp_header_ := h']> (blocks m);
                 calls := calls m |} in
    if negb ok then Some (shared_ptr.null, m')
    else Some (shared_ptr.from_header (counted_ptr.get_ptr cp_header_), m').


(** [reset()]: the new [cp_header_] and the store. *)
Definition reset (env : sptr_header_base.t -> sptr_header_base.t)
  (cp_header_ : Z) (m : memory) : option (Z * memory) :=
  if negb (counted_ptr.get_ptr cp_header_ =? 0)
  then m' ← call_block (counted_ptr.get_ptr cp_header_)
               (sptr_header_base.release_weak env
                  (paired_counter.make (- counted_ptr.get_ctr cp_header_) 1)) m;
       Some (counted_ptr.make_word 0 0, m')
  else Some (cp_header_, m).

(** [operator=( const weak_ptr& r )] *)
Definition assign (env : sptr_header_base.t -> sptr_header_base.t)
  (cp_header_ r : Z) (m : memory) : option (Z * memory) :=
  m1 ← (if negb (counted_ptr.get_ptr cp_header_ =? 0)
        then call_block (counted_ptr.get_ptr cp_header_)
               (sptr_header_base.release_weak env
                  (paired_counter.make (counted_ptr.get_ctr cp_header_) 1)) m
        else Some m);
  let cp_header_' := counted_ptr.make_word 0 (counted_ptr.get_ptr r) in
  if negb (counted_ptr.get_ptr cp_header_' =? 0)
  then m2 ← update_block (counted_ptr.get_ptr cp_header_') sptr_header_base.acquire_weak m1;
       Some (cp_header_', m2)
  else Some (cp_header_', m1).

Definition use_count (cp_header_ : Z) (m : memory) : option Z :=
  if negb (counted_ptr.get_ptr cp_header_ =? 0)
  then read_block (counted_ptr.get_ptr cp_header_) sptr_header_base.use_count m
  else Some 0.

Definition weak_count (cp_header_ : Z) (m : memory) : option Z :=
  if negb (counted_ptr.get_ptr cp_header_ =? 0)
  then read_block (counted_ptr.get_ptr cp_header_) sptr_header_base.weak_count m
  else Some 0.

Definition expired (cp_header_ : Z) (m : memory) : option bool :=
  n ← use_count cp_header_ m; Some (n =? 0).

Definition owner_before (cp_header_ r : Z) : bool :=
  counted_ptr.get_ptr cp_header_ <? counted_ptr.get_ptr r.

End weak_ptr.

(** ** [class atomic_shared_ptr]: the cell *)

(** The cell's word [cptr_hdr_] together with the free store it points into. *)
Record world : Type := World {
  cptr_hdr_ : Z;
  mem : memory
}.

Definition set_cell (c : Z) (w : world) : world := {| cptr_hdr_ := c; mem := mem w |}.
Definition set_mem (m : memory) (w : world) : world := {| cptr_hdr_ := cptr_hdr_ w; mem := m |}.

Module atomic_shared_ptr.

(** [_try_leave( cur_ctrl_ptr, count )]: the result and the cell's word. *)
Definition _try_leave (cur_ctrl_ptr count : Z) (cell : Z) : bool * Z :=
  let desired_ctrl_ptr :=
    counted_ptr.make_word (i16 (counted_ptr.get_ctr cur_ctrl_ptr - count))
      (counted_ptr.get_ptr cur_ctrl_ptr) in
  let '(ok, _, cell') :=
    atomic_counted_ptr.compare_exchange_strong cur_ctrl_ptr desired_ctrl_ptr cell in
  (ok, cell').

(** [_enter()]: the counted pointer returned and the world afterwards.
    [before_cas] runs between the fetch-add and the compare-exchange of
    [_try_leave], [before_unhold] between that and the call of [unhold]. *)
Definition _enter (before_cas before_unhold : world -> world) (w : world)
  : option (Z * world) :=
  let '(old, cell1) := atomic_counted_ptr.fetch_add 1 (cptr_hdr_ w) in
  let w1 := set_cell cell1 w in
  let ctrl_ptr := counted_ptr.incr_ctr old in
  if (Z.shiftl 1 14 <=? counted_ptr.get_ctr ctrl_ptr)
     && negb (counted_ptr.get_ptr ctrl_ptr =? 0)
  then
    let w2 := before_cas w1 in
    let '(ok, cell3) :=
      _try_leave ctrl_ptr (counted_ptr.get_ctr ctrl_ptr) (cptr_hdr_ w2) in
    let w3 := set_cell cell3 w2 in
    if ok then
      let ctrl_ptr' := counted_ptr.set_ctr 0 ctrl_ptr in
      let w4 := before_unhold w3 in
      m' ← update_block (counted_ptr.get_ptr ctrl_ptr')
              (sptr_header_base.unhold (counted_ptr.get_ctr ctrl_ptr')) (mem w4);
      Some (ctrl_ptr', set_mem m' w4)
    else Some (ctrl_ptr, w3)
  else Some (ctrl_ptr, w1).

(** [load()]: the handle returned and the world afterwards; [before_acquire]
    runs between [_enter] and the call of [acquire]. *)
Definition load (before_cas before_unhold before_acquire : world -> world) (w : world)
  : option (Z * world) :=
  '(cur_ctrl_ptr, w1) ← _enter before_cas before_unhold w;
  if counted_ptr.get_ptr cur_ctrl_ptr =? 0 then Some (shared_ptr.null, w1)
  else
    let w2 := before_acquire w1 in
    m' ← update_block (counted_ptr.get_ptr cur_ctrl_ptr)
            (sptr_header_base.acquire (paired_counter.make 1 1)) (mem w2);
    Some (shared_ptr.from_header (counted_ptr.get_ptr cur_ctrl_ptr), set_mem m' w2).

(** [store( shared_ptr<T>&& desired )]: what [desired] holds afterwards, and
    the world. *)
Definition store (desired : Z) (w : world) : Z * world :=
  let '(old, cell') := atomic_counted_ptr.exchange desired (cptr_hdr_ w) in
  (old, set_cell cell' w).

(** [~atomic_shared_ptr()] *)
Definition destroy (env : sptr_header_base.t -> sptr_header_base.t) (w : world)
  : option world :=
  let cur_ctrl_ptr := atomic_counted_ptr.load (cptr_hdr_ w) in
  if negb (counted_ptr.get_ptr cur_ctrl_ptr =? 0)
  then m' ← call_block (counted_ptr.get_ptr cur_ctrl_ptr)
               (sptr_header_base.release env
                  (paired_counter.make (counted_ptr.get_ctr cur_ctrl_ptr) 1)) (mem w);
       Some (set_mem m' w)
  else Some w.


(** [atomic_shared_ptr( shared_ptr<T>&& r )]: the cell's word and [r]
    afterwards. *)
Definition from_shared_move (r : Z) : Z * Z := (r, counted_ptr.make_word 0 0).

(** [atomic_shared_ptr( shared_ptr<T>& r )]: the cell's word and the store. *)
Definition from_shared (r : Z) (m : memory) : option (Z * memory) :=
  let cell := counted_ptr.make_word 0 (counted_ptr.get_ptr r) in
  m' ← shared_ptr._acquire r m;
  Some (cell, m').

(** [store( const shared_ptr<T>& desired )]: a copy is stored with the rvalue
    overload, and the copy, which then holds what the cell held, dies. *)
Definition store_copy (env : sptr_header_base.t -> sptr_header_base.t)
  (desired : Z) (w : world) : option world :=
  '(tmp, m1) ← shared_ptr.copy desired (mem w);
  let '(tmp', w2) := store tmp (set_mem m1 w) in
  m3 ← shared_ptr.destroy env tmp' (mem w2);
  Some (set_mem m3 w2).

(** [exchange( shared_ptr<T>&& desired )]: the handle returned, [desired]
    afterwards and the world. *)
Definition exchange_move (desired : Z) (w : world) : Z * Z * world :=
  let '(old, cell') := atomic_counted_ptr.exchange desired (cptr_hdr_ w) in
  (old, counted_ptr.make_word 0 0, set_cell cell' w).

(** [exchange( const shared_ptr<T>& desired )]: the handle returned and the
    world. *)
Definition exchange_copy (desired : Z) (w : world) : option (Z * world) :=
  let desired_ptr := counted_ptr.get_ptr desired in
  m1 ← (if negb (desired_ptr =? 0)
        then update_block desired_ptr
               (sptr_header_base.acquire (paired_counter.make 0 1)) (mem w)
        else Some (mem w));
  let '(old, cell') :=
    atomic_counted_ptr.exchange (counted_ptr.make_word_ptr desired_ptr) (cptr_hdr_ w) in
  Some (old, set_cell cell' (set_mem m1 w)).

(** The static [_release( ctrl_ptr, count )]. *)
Definition _release (env : sptr_header_base.t -> sptr_header_base.t)
  (ctrl_ptr count : Z) (m : memory) : option memory :=
  if negb (ctrl_ptr =? 0)
  then call_block ctrl_ptr (sptr_header_base.release env count) m
  else Some m.

(** [_leave( cur_ctrl_ptr )]: one schedule entry per turn of the loop; [None]
    when the schedule ends before the loop does. *)
Fixpoint _leave (env : sptr_header_base.t -> sptr_header_base.t)
  (sched : list (attempt world)) (cur_ctrl_ptr : Z) (w : world) : option world :=
  match sched with
  | [] => None
  | a :: sched' =>
      let desired_ctrl_ptr :=
        counted_ptr.make_word (i16 (counted_ptr.get_ctr cur_ctrl_ptr - 1))
          (counted_ptr.get_ptr cur_ctrl_ptr) in
      let w1 := before a w in
      let '(ok, cur_ctrl_ptr', cell') :=
        atomic_counted_ptr.compare_exchange_weak (spurious a) cur_ctrl_ptr
          desired_ctrl_ptr (cptr_hdr_ w1) in
      let w2 := set_cell cell' w1 in
      if ok then Some w2
      else if negb (counted_ptr.get_ptr cur_ctrl_ptr'
                    =? counted_ptr.get_ptr desired_ctrl_ptr)
           then m' ← _release env (counted_ptr.get_ptr desired_ctrl_ptr)
                        (paired_counter.make 1 0) (mem w2);
                Some (set_mem m' w2)
           else _leave env sched' cur_ctrl_ptr' w2
  end.

(** [_reenter( old_ctrl_ptr )] *)
Definition _reenter (e1 e2 : world -> world)
  (env : sptr_header_base.t -> sptr_header_base.t) (old_ctrl_ptr : Z) (w : world)
  : option (Z * world) :=
  let cur_ctrl_ptr := atomic_counted_ptr.load (cptr_hdr_ w) in
  if counted_ptr.get_ptr cur_ctrl_ptr =? counted_ptr.get_ptr old_ctrl_ptr
  then Some (cur_ctrl_ptr, w)
  else
    m1 ← (if negb (counted_ptr.get_ptr old_ctrl_ptr =? 0)
          then call_block (counted_ptr.get_ptr old_ctrl_ptr)
                 (sptr_header_base.release env (paired_counter.make 1 0)) (mem w)
          else Some (mem w));
    _enter e1 e2 (set_mem m1 w).

(** [compare_exchange_strong( expected, shared_ptr<T>&& desired )].

    The code from the label [start] to the end of the loop body.  [inl]: the
    call returns false with this [expected], [desired] and world; [inr]: the
    loop goes on with this [exp_ctrl_ptr], [expected] and world.  The
    assignment to [expected] moves the old [cp_header_] into the temporary,
    which dies before [acquire] is called. *)
Definition strong_move_start (e1 e2 : world -> world)
  (env : sptr_header_base.t -> sptr_header_base.t)
  (expected_ptr expected desired : Z) (w : world)
  : option ((bool * Z * Z * world) + (Z * Z * world)) :=
  '(exp_ctrl_ptr, w1) ← _enter e1 e2 w;
  if negb (expected_ptr =? counted_ptr.get_ptr exp_ctrl_ptr) then
    m2 ← shared_ptr.destroy env expected (mem w1);
    let expected' := shared_ptr.from_header (counted_ptr.get_ptr exp_ctrl_ptr) in
    m3 ← (if negb (counted_ptr.get_ptr exp_ctrl_ptr =? 0)
          then update_block (counted_ptr.get_ptr exp_ctrl_ptr)
                 (sptr_header_base.acquire (paired_counter.make 1 1)) m2
          else Some m2);
    Some (inl (false, expected', desired, set_mem m3 w1))
  else Some (inr (exp_ctrl_ptr, counted_ptr.decr_ctr expected, w1)).

(** The [for(;;)], one schedule entry (what runs before the compare-exchange)
    per turn: the result, [expected], [desired] and the world. *)
Fixpoint strong_move_loop (e1 e2 : world -> world)
  (env : sptr_header_base.t -> sptr_header_base.t) (sched : list (world -> world))
  (expected_ptr exp_ctrl_ptr expected desired : Z) (w : world)
  : option (bool * Z * Z * world) :=
  match sched with
  | [] => None
  | e :: sched' =>
      let w1 := e w in
      let '(ok, exp_ctrl_ptr', cell') :=
        atomic_counted_ptr.compare_exchange_strong exp_ctrl_ptr desired (cptr_hdr_ w1) in
      let w2 := set_cell cell' w1 in
      if ok then Some (true, expected, exp_ctrl_ptr', w2)
      else if negb (expected_ptr =? counted_ptr.get_ptr exp_ctrl_ptr') then
        r ← strong_move_start e1 e2 env expected_ptr expected desired w2;
        match r with
        | inl res => Some res
        | inr (exp_ctrl_ptr'', expected', w3) =>
            strong_move_loop e1 e2 env sched' expected_ptr exp_ctrl_ptr'' expected'
              desired w3
        end
      else strong_move_loop e1 e2 env sched' expected_ptr exp_ctrl_ptr' expected
             desired w2
  end.

Definition compare_exchange_strong_move (e1 e2 : world -> world)
  (env : sptr_header_base.t -> sptr_header_base.t) (sched : list (world -> world))
  (expected desired : Z) (w : world) : option (bool * Z * Z * world) :=
  let expected_ptr := counted_ptr.get_ptr expected in
  r ← strong_move_start e1 e2 env expected_ptr expected desired w;
  match r with
  | inl res => Some res
  | inr (exp_ctrl_ptr, expected', w1) =>
      strong_move_loop e1 e2 env sched expected_ptr exp_ctrl_ptr expected' desired w1
  end.

End atomic_shared_ptr.

(** ** [struct shareable]: the split destruction

    The 8-bit [state_] and what the two hooks do to it.  The destructor of the
    object and the destruction of the header are recorded as events.  A call
    whose [assert] fails has no result ([None]); what another thread does
    between two accesses to [state_] is an interference that may itself fail. *)

Module shareable.

Definition live : Z := 0.
Definition destroying_object : Z := 1.
Definition object_destroyed : Z := 2.
Definition destroy_header : Z := 4.

Inductive event : Type :=
| object_destructor      (* std::destroy_at( get_ptr() ) *)
| header_freed.          (* std::destroy_at( this ); deleter( this ) *)

Record t : Type := Shareable { state_ : Z; events : list event }.

(** [_delete_header()] *)
Definition _delete_header (s : t) : option t :=
  let old_state := state_ s in
  let s1 := {| state_ := Z.lor (state_ s) destroy_header; events := events s |} in
  if Z.land old_state (Z.lor destroying_object object_destroyed) =? 0 then None
  else if negb (Z.land old_state destroying_object =? 0) then Some s1
  else Some {| state_ := state_ s1; events := events s1 ++ [header_freed] |}.

(** [_delete_object( self )]; [e1] runs before the destructor of the object,
    [e2] after it. *)
Definition _delete_object (e1 e2 : t -> option t) (s : t) : option t :=
  let old_state := state_ s in
  let s1 := {| state_ := Z.lor (state_ s) destroying_object; events := events s |} in
  if negb (0 =? Z.land old_state (Z.lor destroying_object object_destroyed)) then None
  else
    s2 ← e1 s1;
    let s3 := {| state_ := state_ s2; events := events s2 ++ [object_destructor] |} in
    s4 ← e2 s3;
    let old_state' := state_ s4 in
    let s5 := {| state_ := Z.lxor (state_ s4) (Z.lor destroying_object object_destroyed);
                 events := events s4 |} in
    if negb (destroying_object
             =? Z.land old_state' (Z.lor destroying_object object_destroyed))
    then None
    else if negb (Z.land old_state' destroy_header =? 0) then _delete_header s5
    else Some s5.

End shareable.

(** ** The life of one control block

    The calls that handles and cells make on one block, in the order in which
    they take effect on its counters, next to the number of handles that
    exist.  What other threads do is other calls of the sequence, so each call
    runs undisturbed here.  The counts of handles are bookkeeping of the
    model; the block itself does not store them. *)

Module lifecycle.

Inductive op : Type :=
| shared_copy               (* shared_ptr( const shared_ptr& ), operator=, _acquire(),
                               atomic_shared_ptr::exchange( const& ),
                               compare_exchange_*( .., const& ): acquire({ 0, 1 }) *)
| shared_destroy (ctr : Z)  (* ~shared_ptr(), reset(), operator=, ~atomic_shared_ptr(),
                               compare_exchange_*: release({ ctr, 1 }) *)
| weak_copy                 (* weak_ptr( const shared_ptr& ), weak_ptr( const weak_ptr& ),
                               operator=: acquire_weak() *)
| weak_destroy              (* ~weak_ptr(), reset(), operator=: release_weak({ 0, 1 }) *)
| weak_lock (spurs : list bool)
                            (* weak_ptr::lock(): weak_lock(), with the spurious
                               failures of its compare-exchange attempts *)
| cell_load                 (* atomic_shared_ptr::load(), compare_exchange_*:
                               acquire({ 1, 1 }) for the handle handed out *)
| cell_unhold (count : Z)   (* atomic_shared_ptr::_enter(): unhold( count ) *)
| cell_leave.               (* atomic_shared_ptr::_leave(), _reenter(): release({ 1, 0 }) *)

Record state : Type := State {
  hdr : sptr_header_base.t;
  shared_handles : nat;      (* live shared handles, those held in cells included *)
  weak_handles : nat;        (* live weak handles *)
  hooks : list sptr_header_base.hook   (* the hook calls so far *)
}.

(** A block right after [new sptr_header_extern{ ptr }]: one shared handle. *)
Definition init (ptr : Z) : state :=
  {| hdr := sptr_header_base.make ptr; shared_handles := 1; weak_handles := 0;
     hooks := [] |}.

Definition header_deleted (s : state) : bool :=
  existsb (fun k => match k with
                    | sptr_header_base._delete_header => true
                    | _ => false
                    end) (hooks s).

(** One call; [None] when the handle that makes the call does not exist or
    the header is gone. *)
Definition step (o : op) (s : state) : option state :=
  if header_deleted s then None else
  match o with
  | shared_copy =>
      if (1 <=? shared_handles s)%nat
      then Some {| hdr := sptr_header_base.acquire1 (hdr s);
                   shared_handles := S (shared_handles s);
                   weak_handles := weak_handles s; hooks := hooks s |}
      else None
  | shared_destroy ctr =>
      if (1 <=? shared_handles s)%nat
      then let '(ks, h) :=
             sptr_header_base.release quiet (paired_counter.make ctr 1) (hdr s) in
           Some {| hdr := h; shared_handles := pred (shared_handles s);
                   weak_handles := weak_handles s; hooks := hooks s ++ ks |}
      else None
  | weak_copy =>
      if (1 <=? shared_handles s + weak_handles s)%nat
      then Some {| hdr := sptr_header_base.acquire_weak (hdr s);
                   shared_handles := shared_handles s;
                   weak_handles := S (weak_handles s); hooks := hooks s |}
      else None
  | weak_destroy =>
      if (1 <=? weak_handles s)%nat
      then let '(ks, h) :=
             sptr_header_base.release_weak quiet (paired_counter.make 0 1) (hdr s) in
           Some {| hdr := h; shared_handles := shared_handles s;
                   weak_handles := pred (weak_handles s); hooks := hooks s ++ ks |}
      else None
  | weak_lock spurs =>
      if (1 <=? weak_handles s)%nat
      then '(ok, h) ← sptr_header_base.weak_lock
                        (map (Attempt quiet) spurs ++ [Attempt quiet false]) (hdr s);
           Some {| hdr := h;
                   shared_handles := if ok : bool then S (shared_handles s)
                                     else shared_handles s;
                   weak_handles := weak_handles s; hooks := hooks s |}
      else None
  | cell_load =>
      if (1 <=? shared_handles s)%nat
      then Some {| hdr := sptr_header_base.acquire (paired_counter.make 1 1) (hdr s);
                   shared_handles := S (shared_handles s);
                   weak_handles := weak_handles s; hooks := hooks s |}
      else None
  | cell_unhold count =>
      if (1 <=? shared_handles s)%nat
      then Some {| hdr := sptr_header_base.unhold count (hdr s);
                   shared_handles := shared_handles s;
                   weak_handles := weak_handles s; hooks := hooks s |}
      else None
  | cell_leave =>
      let '(ks, h) :=
        sptr_header_base.release quiet (paired_counter.make 1 0) (hdr s) in
      Some {| hdr := h; shared_handles := shared_handles s;
              weak_handles := weak_handles s; hooks := hooks s ++ ks |}
  end.

Fixpoint run (ops : list op) (s : state) : option state :=
  match ops with
  | [] => Some s
  | o :: ops' => s' ← step o s; run ops' s'
  end.

(** The states a block constructed over [ptr] can be in. *)
Definition reachable (ptr : Z) (s : state) : Prop :=
  exists ops, run ops (init ptr) = Some s.

End lifecycle.

(** The weak counter's word is the number of live weak handles. *)
Definition weak_balanced (s : lifecycle.state) : Prop :=
  sptr_header_base.weak_references_ (lifecycle.hdr s)
  = u64 (Z.of_nat (lifecycle.weak_handles s)).

(** * Properties *)

(** ** Facts about the lanes of a paired counter *)

Ltac unfold_ints :=
  unfold word64, int32, int16, u64, u32, u16, i32, i16 in *.

Ltac lanes := unfold_ints; Z.div_mod_to_equations; lia.

Ltac unfold_pc :=
  unfold paired_counter.add, paired_counter.sub, paired_counter.eqb,
    paired_counter.gt, paired_counter.lt, paired_counter.word,
    paired_counter.get_cnt1, paired_counter.get_cnt2, paired_counter.make in *.

Lemma i32_range x : int32 (i32 x).
Proof. lanes. Qed.

Lemma i32_id x : int32 x -> i32 x = x.
Proof. lanes. Qed.

Lemma u32_i32 x : u32 (i32 x) = u32 x.
Proof. lanes. Qed.

Lemma make_word64 c1 c2 : word64 (paired_counter.make c1 c2).
Proof. unfold_pc. lanes. Qed.

Lemma get_cnt1_make c1 c2 : paired_counter.get_cnt1 (paired_counter.make c1 c2) = i32 c1.
Proof. unfold_pc. lanes. Qed.

Lemma get_cnt2_make c1 c2 : paired_counter.get_cnt2 (paired_counter.make c1 c2) = u32 c2.
Proof. unfold_pc. lanes. Qed.

Lemma make_get w :
  word64 w -> paired_counter.make (paired_counter.get_cnt1 w) (paired_counter.get_cnt2 w) = w.
Proof. unfold_pc. lanes. Qed.

Lemma lanes_inj a b :
  word64 a -> word64 b ->
  paired_counter.get_cnt1 a = paired_counter.get_cnt1 b ->
  paired_counter.get_cnt2 a = paired_counter.get_cnt2 b -> a = b.
Proof. unfold_pc. lanes. Qed.

Lemma get_cnt1_range w : int32 (paired_counter.get_cnt1 w).
Proof. unfold paired_counter.get_cnt1. apply i32_range. Qed.

Lemma get_cnt2_range w : 0 <= paired_counter.get_cnt2 w < 2 ^ 32.
Proof. unfold_pc. lanes. Qed.

Lemma make_ext c1 c1' c2 c2' :
  i32 c1 = i32 c1' -> u32 c2 = u32 c2' ->
  paired_counter.make c1 c2 = paired_counter.make c1' c2'.
Proof. unfold_pc. intros H1 H2. rewrite H2. f_equal. f_equal. revert H1. lanes. Qed.

Lemma add_sub_lanes a b :
  word64 a ->
  paired_counter.sub (paired_counter.add a b) b = a.
Proof.
  intros Ha. unfold paired_counter.sub, paired_counter.add.
  rewrite get_cnt1_make, get_cnt2_make.
  transitivity (paired_counter.make (paired_counter.get_cnt1 a) (paired_counter.get_cnt2 a));
    [| now apply make_get].
  pose proof (get_cnt1_range a). pose proof (get_cnt2_range a).
  apply make_ext; lanes.
Qed.

Lemma add_comm_lanes a b : paired_counter.add a b = paired_counter.add b a.
Proof.
  unfold paired_counter.add.
  rewrite (Z.add_comm (paired_counter.get_cnt1 a)), (Z.add_comm (paired_counter.get_cnt2 a)).
  reflexivity.
Qed.

Lemma gt_spec a b :
  paired_counter.gt a b = true <->
  paired_counter.get_cnt1 b < paired_counter.get_cnt1 a
  /\ paired_counter.get_cnt2 b < paired_counter.get_cnt2 a.
Proof. unfold paired_counter.gt. rewrite andb_true_iff, !Z.ltb_lt. tauto. Qed.

Lemma lt_spec a b :
  paired_counter.lt a b = true <->
  paired_counter.get_cnt1 a < paired_counter.get_cnt1 b
  /\ paired_counter.get_cnt2 a < paired_counter.get_cnt2 b.
Proof. unfold paired_counter.lt. rewrite andb_true_iff, !Z.ltb_lt. tauto. Qed.

Lemma eqb_spec a b :
  word64 a -> word64 b ->
  paired_counter.eqb a b = true <->
  paired_counter.get_cnt1 a = paired_counter.get_cnt1 b
  /\ paired_counter.get_cnt2 a = paired_counter.get_cnt2 b.
Proof.
  intros Ha Hb. unfold paired_counter.eqb, paired_counter.word. rewrite Z.eqb_eq. split.
  - intros ->. split; reflexivity.
  - intros [H1 H2]. now apply lanes_inj.
Qed.

Lemma minus_rvalue_after_plus a b :
  paired_counter.sub_rvalue (paired_counter.add a b) b
  = paired_counter.sub (paired_counter.make 0 0) a.
Proof.
  unfold paired_counter.sub_rvalue, paired_counter.sub_assign, paired_counter.sub,
    paired_counter.add.
  rewrite !get_cnt1_make, !get_cnt2_make. apply make_ext; lanes.
Qed.

(** C9.  The paired counter laws on the code.  With an lvalue right operand,
    [(a + b) - b == a] and [a + b == b + a] hold for all counters, with 32-bit
    wrap-around in each lane, and [a + b] is the same with an rvalue right
    operand.  With an rvalue right operand [operator-] computes [r - l]: there
    [(a + b) - b] is [{0, 0} - a], which equals [a] only when twice each lane
    of [a] is zero modulo 2^32; for [a = {3, 4}] and [b = {1, 1}] it is
    [{-3, 2^32 - 4}].  Word equality is equality of both lanes; [a > b] holds
    exactly when both lanes of [a] are strictly greater, [a < b] exactly when
    both are strictly smaller; [>] is irreflexive, asymmetric and transitive;
    and the order is not total: [{0, 1}] and [{1, 0}] are neither [<], nor
    [>], nor [==]. *)
Theorem paired_counter_laws (a b : Z) :
  word64 a -> word64 b ->
  paired_counter.eqb (paired_counter.sub (paired_counter.add a b) b) a = true
  /\ paired_counter.eqb (paired_counter.add a b) (paired_counter.add b a) = true
  /\ paired_counter.add_rvalue a b = paired_counter.add a b
  /\ paired_counter.sub_rvalue (paired_counter.add a b) b
     = paired_counter.sub (paired_counter.make 0 0) a
  /\ (paired_counter.eqb (paired_counter.sub_rvalue (paired_counter.add a b) b) a = true <->
      u32 (2 * paired_counter.get_cnt1 a) = 0 /\ u32 (2 * paired_counter.get_cnt2 a) = 0)
  /\ paired_counter.sub_rvalue
       (paired_counter.add (paired_counter.make 3 4) (paired_counter.make 1 1))
       (paired_counter.make 1 1)
     = paired_counter.make (-3) (2 ^ 32 - 4)
  /\ paired_counter.eqb
       (paired_counter.sub_rvalue
          (paired_counter.add (paired_counter.make 3 4) (paired_counter.make 1 1))
          (paired_counter.make 1 1))
       (paired_counter.make 3 4) = false
  /\ (paired_counter.eqb a b = true <->
      paired_counter.get_cnt1 a = paired_counter.get_cnt1 b
      /\ paired_counter.get_cnt2 a = paired_counter.get_cnt2 b)
  /\ (paired_counter.gt a b = true <->
      paired_counter.get_cnt1 b < paired_counter.get_cnt1 a
      /\ paired_counter.get_cnt2 b < paired_counter.get_cnt2 a)
  /\ (paired_counter.lt a b = true <->
      paired_counter.get_cnt1 a < paired_counter.get_cnt1 b
      /\ paired_counter.get_cnt2 a < paired_counter.get_cnt2 b)
  /\ paired_counter.gt a a = false
  /\ (paired_counter.gt a b = true -> paired_counter.gt b a = false)
  /\ (forall c, paired_counter.gt a b = true -> paired_counter.gt b c = true ->
                paired_counter.gt a c = true)
  /\ (paired_counter.lt (paired_counter.make 0 1) (paired_counter.make 1 0) = false
      /\ paired_counter.gt (paired_counter.make 0 1) (paired_counter.make 1 0) = false
      /\ paired_counter.eqb (paired_counter.make 0 1) (paired_counter.make 1 0) = false).
Proof.
  intros Ha Hb.
  split.
  { unfold paired_counter.eqb, paired_counter.word.
    rewrite add_sub_lanes by assumption. apply Z.eqb_refl. }
  split.
  { rewrite add_comm_lanes. unfold paired_counter.eqb. apply Z.eqb_refl. }
  split.
  { unfold paired_counter.add_rvalue, paired_counter.add_assign. apply add_comm_lanes. }
  split.
  { apply minus_rvalue_after_plus. }
  split.
  { rewrite minus_rvalue_after_plus. unfold paired_counter.sub.
    rewrite (eqb_spec _ a (make_word64 _ _) Ha).
    rewrite !get_cnt1_make, !get_cnt2_make.
    pose proof (get_cnt1_range a) as H1. pose proof (get_cnt2_range a) as H2.
    revert H1 H2.
    generalize (paired_counter.get_cnt1 a) (paired_counter.get_cnt2 a).
    intros c1 c2 H1 H2. split.
    - intros [E1 E2]. split; [revert E1 | revert E2]; lanes.
    - intros [E1 E2]. split; [revert E1 | revert E2]; lanes. }
  split.
  { vm_compute. reflexivity. }
  split.
  { vm_compute. reflexivity. }
  split.
  { now apply eqb_spec. }
  split.
  { apply gt_spec. }
  split.
  { apply lt_spec. }
  split.
  { apply not_true_is_false. rewrite gt_spec. lia. }
  split.
  { intros H. apply not_true_is_false. rewrite gt_spec in *. lia. }
  split.
  { intros c. rewrite !gt_spec. lia. }
  repeat split.
Qed.

Lemma paired_counter_laws_witness :
  word64 (paired_counter.make 3 4) /\ word64 (paired_counter.make (-1) 7)
  /\ paired_counter.eqb
       (paired_counter.sub
          (paired_counter.add (paired_counter.make 3 4) (paired_counter.make (-1) 7))
          (paired_counter.make (-1) 7))
       (paired_counter.make 3 4) = true.
Proof.
  assert (H1 : word64 (paired_counter.make 3 4)) by (vm_compute; split; [discriminate | reflexivity]).
  assert (H2 : word64 (paired_counter.make (-1) 7)) by (vm_compute; split; [discriminate | reflexivity]).
  split; [exact H1 | split; [exact H2 |]].
  exact (proj1 (paired_counter_laws _ _ H1 H2)).
Defined.

(** The rvalue overload of [operator-] subtracts the other way round. *)
Remark sub_rvalue_swaps l r : paired_counter.sub_rvalue l r = paired_counter.sub r l.
Proof. reflexivity. Qed.

(** ** The transfer primitive *)

Lemma split_word w :
  word64 w ->
  exists hi lo, w = hi * 2 ^ 32 + lo /\ 0 <= hi < 2 ^ 32 /\ 0 <= lo < 2 ^ 32.
Proof.
  intros Hw. exists (w / 2 ^ 32), (w mod 2 ^ 32). lanes.
Qed.

(** C5, as the code has it.  For a counter [PC(c1, c2)] and a signed 32-bit
    [n], [fetch_transfer(n)] returns the pre-state; the new counter is
    [PC(c1 - n, c2 + n)] (each lane modulo 2^32) whenever [c2 + n] stays within
    [0, 2^32).  The update is one 64-bit addition or subtraction, so when
    [c2 + n] leaves that range the carry or borrow of the low lane reaches
    [c1]: the result is [PC(c1 - n + 1, c2 + n)] on overflow and
    [PC(c1 - n - 1, c2 + n)] on underflow. *)
Theorem fetch_transfer_lanes (n w : Z) :
  int32 n -> word64 w ->
  let c1 := paired_counter.get_cnt1 w in
  let c2 := paired_counter.get_cnt2 w in
  fst (atomic_paired_counter.fetch_transfer n w) = w
  /\ (0 <= c2 + n < 2 ^ 32 ->
      snd (atomic_paired_counter.fetch_transfer n w) = paired_counter.make (c1 - n) (c2 + n))
  /\ (2 ^ 32 <= c2 + n ->
      snd (atomic_paired_counter.fetch_transfer n w)
      = paired_counter.make (c1 - n + 1) (c2 + n))
  /\ (c2 + n < 0 ->
      snd (atomic_paired_counter.fetch_transfer n w)
      = paired_counter.make (c1 - n - 1) (c2 + n)).
Proof.
  intros Hn Hw c1 c2. subst c1 c2.
  destruct (split_word w Hw) as (hi & lo & -> & Hhi & Hlo).
  unfold atomic_paired_counter.fetch_transfer, atomic_paired_counter.fetch_add,
    atomic_paired_counter.fetch_sub, atomic.fetch_add, atomic.fetch_sub.
  unfold_pc.
  destruct (Z.leb_spec 0 n); cbn [fst snd]; (split; [reflexivity |]).
  - repeat split; intros; lanes.
  - repeat split; intros; lanes.
Qed.

Lemma fetch_transfer_lanes_witness :
  int32 1 /\ word64 (paired_counter.make 5 7)
  /\ snd (atomic_paired_counter.fetch_transfer 1 (paired_counter.make 5 7))
     = paired_counter.make 4 8.
Proof.
  assert (Hn : int32 1) by (vm_compute; split; discriminate || reflexivity).
  assert (Hw : word64 (paired_counter.make 5 7))
    by (vm_compute; split; discriminate || reflexivity).
  split; [exact Hn | split; [exact Hw |]].
  refine (proj1 (proj2 (fetch_transfer_lanes 1 _ Hn Hw)) _).
  vm_compute. split; discriminate || reflexivity.
Defined.

(** C5 as stated fails where the low lane overflows or underflows: moving 1
    out of [PC(0, 2^32 - 1)] leaves [PC(0, 0)], not [PC(-1, 0)], and moving
    -1 out of [PC(0, 0)] leaves [PC(0, 2^32 - 1)], not [PC(1, 2^32 - 1)]. *)
Lemma fetch_transfer_carry :
  let w := paired_counter.make 0 (2 ^ 32 - 1) in
  let z := paired_counter.make 0 0 in
  int32 1 /\ word64 w
  /\ snd (atomic_paired_counter.fetch_transfer 1 w) = paired_counter.make 0 0
  /\ snd (atomic_paired_counter.fetch_transfer 1 w)
     <> paired_counter.make (paired_counter.get_cnt1 w - 1) (paired_counter.get_cnt2 w + 1)
  /\ int32 (-1) /\ word64 z
  /\ snd (atomic_paired_counter.fetch_transfer (-1) z) = paired_counter.make 0 (2 ^ 32 - 1)
  /\ snd (atomic_paired_counter.fetch_transfer (-1) z)
     <> paired_counter.make (paired_counter.get_cnt1 z - -1) (paired_counter.get_cnt2 z + -1).
Proof.
  vm_compute. repeat split; discriminate || reflexivity.
Qed.

(** ** The lanes of a counted pointer *)

Lemma make_word_ctr_alt n : counted_ptr.make_word_ctr n = u16 n * 2 ^ 48.
Proof.
  unfold counted_ptr.make_word_ctr. rewrite Z.shiftl_mul_pow2 by lia. lanes.
Qed.

Lemma get_ctr_alt w : counted_ptr.get_ctr w = i16 (w / 2 ^ 48).
Proof. unfold counted_ptr.get_ctr. now rewrite Z.shiftr_div_pow2 by lia. Qed.

Lemma get_ptr_alt w : counted_ptr.get_ptr w = w mod 2 ^ 48.
Proof.
  unfold counted_ptr.get_ptr. change (Z.shiftl 1 48 - 1) with (Z.ones 48).
  now rewrite Z.land_ones by lia.
Qed.

Lemma lor_lanes hi lo :
  0 <= lo < 2 ^ 48 -> Z.lor (hi * 2 ^ 48) lo = hi * 2 ^ 48 + lo.
Proof.
  intros Hlo. rewrite <- Z.shiftl_mul_pow2 by lia.
  rewrite <- Z.lxor_lor, <- Z.add_nocarry_lxor; try reflexivity.
  all: apply Z.bits_inj'; intros k Hk; rewrite Z.land_spec, Z.bits_0.
  all: destruct (Z.ltb_spec k 48) as [Hlt | Hge].
  all: try (rewrite Z.shiftl_spec_low by lia; reflexivity).
  all: rewrite (Z.bits_above_log2 lo k), andb_false_r; try reflexivity; try lia.
  all: destruct (Z.eq_dec lo 0) as [-> | Hne]; [cbn; lia |].
  all: apply Z.log2_lt_pow2; try lia.
  all: apply Z.lt_le_trans with (2 ^ 48); [lia | apply Z.pow_le_mono_r; lia].
Qed.

Lemma make_word_alt c p :
  0 <= p < 2 ^ 48 -> counted_ptr.make_word c p = u16 c * 2 ^ 48 + p.
Proof.
  intros Hp. unfold counted_ptr.make_word, counted_ptr.make_word_ptr.
  rewrite make_word_ctr_alt. now apply lor_lanes.
Qed.

Lemma set_ctr_alt c w : counted_ptr.set_ctr c w = u16 c * 2 ^ 48 + w mod 2 ^ 48.
Proof.
  unfold counted_ptr.set_ctr, counted_ptr.ptr_mask.
  change (Z.shiftl 1 48 - 1) with (Z.ones 48).
  rewrite Z.land_ones, Z.shiftl_mul_pow2 by lia.
  apply lor_lanes. lanes.
Qed.

Lemma fetch_add_lanes n w :
  let w' := snd (atomic_counted_ptr.fetch_add n w) in
  word64 w'
  /\ counted_ptr.get_ctr w' = i16 (counted_ptr.get_ctr w + n)
  /\ counted_ptr.get_ptr w' = counted_ptr.get_ptr w.
Proof.
  unfold atomic_counted_ptr.fetch_add, atomic.fetch_add. cbn [snd].
  rewrite !get_ctr_alt, !get_ptr_alt, make_word_ctr_alt. lanes.
Qed.




(** ** The control block: [release] *)

Lemma sub_reaches_zero r count :
  word64 r -> word64 count -> (r = count <-> u64 (r - count) = 0).
Proof. intros Hr Hc. split; intros H; revert H; lanes. Qed.

(** C3.  [release(PC(c1, c2))] subtracts the count from the strong counter
    with one fetch-sub.  It calls the hook that destroys the object exactly
    when the strong counter was [PC(c1, c2)] before the subtraction, which is
    when it reaches [PC(0, 0)]; it then calls the hook that destroys the header
    exactly when the weak counter it reads is [PC(0, 0)]; in every other case
    it calls no hook and changes nothing but the strong counter. *)
Theorem release_hooks (env : sptr_header_base.t -> sptr_header_base.t)
  (c1 c2 : Z) (h : sptr_header_base.t) :
  word64 (sptr_header_base.references_ h) ->
  let count := paired_counter.make c1 c2 in
  let h1 := sptr_header_base.set_references
              (u64 (sptr_header_base.references_ h - count)) h in
  (sptr_header_base.references_ h = count <->
   sptr_header_base.references_ h1 = paired_counter.make 0 0)
  /\ (sptr_header_base.references_ h = count ->
      sptr_header_base.weak_references_ (env h1) = paired_counter.make 0 0 ->
      sptr_header_base.release env count h
      = ([sptr_header_base._delete_object (sptr_header_base.pointer_ h);
          sptr_header_base._delete_header], env h1))
  /\ (sptr_header_base.references_ h = count ->
      sptr_header_base.weak_references_ (env h1) <> paired_counter.make 0 0 ->
      sptr_header_base.release env count h
      = ([sptr_header_base._delete_object (sptr_header_base.pointer_ h)], env h1))
  /\ (sptr_header_base.references_ h <> count ->
      sptr_header_base.release env count h = ([], h1)).
Proof.
  intros Hr count h1.
  assert (Hc : word64 count) by apply make_word64.
  change (paired_counter.make 0 0) with 0.
  split; [apply (sub_reaches_zero _ _ Hr Hc) |].
  unfold sptr_header_base.release, atomic_paired_counter.fetch_sub, atomic.fetch_sub,
    atomic_paired_counter.load, atomic.load, paired_counter.eqb, paired_counter.word,
    sptr_header_base.get_ptr.
  fold count. fold h1.
  repeat split.
  - intros He Hw. rewrite (proj2 (Z.eqb_eq _ _) He), (proj2 (Z.eqb_eq _ _) Hw).
    reflexivity.
  - intros He Hw. rewrite (proj2 (Z.eqb_eq _ _) He), (proj2 (Z.eqb_neq _ _) Hw).
    reflexivity.
  - intros He. rewrite (proj2 (Z.eqb_neq _ _) He). reflexivity.
Qed.

Lemma release_hooks_witness :
  let h := sptr_header_base.make 4096 in
  word64 (sptr_header_base.references_ h)
  /\ sptr_header_base.release quiet (paired_counter.make 0 1) h
     = ([sptr_header_base._delete_object 4096; sptr_header_base._delete_header],
        sptr_header_base.set_references 0 h).
Proof.
  assert (Hr : word64 (sptr_header_base.references_ (sptr_header_base.make 4096)))
    by (vm_compute; split; discriminate || reflexivity).
  split; [exact Hr |].
  exact (proj1 (proj2 (release_hooks quiet 0 1 _ Hr)) eq_refl eq_refl).
Defined.

(** ** The control block: [weak_lock] *)

Lemma set_references_same h :
  sptr_header_base.set_references (sptr_header_base.references_ h) h = h.
Proof. now destruct h. Qed.

Lemma interfere_cons {A : Type} (a : attempt A) sched (x : A) :
  interfere (a :: sched) x = interfere sched (before a x).
Proof. reflexivity. Qed.

(** The loop ends once an attempt runs undisturbed, and its outcome is decided
    by the strong counter it met at its last access. *)
Lemma weak_lock_loop_lin sched : forall h,
  exists n, (n <= length sched)%nat /\
    let lin := interfere (firstn n sched) h in
    let cur := sptr_header_base.references_ lin in
    sptr_header_base.weak_lock_loop (sched ++ [Attempt quiet false])
      (sptr_header_base.references_ h) h
    = if paired_counter.get_cnt2 cur =? 0 then Some (false, lin)
      else Some (true,
                 sptr_header_base.set_references
                   (paired_counter.make (paired_counter.get_cnt1 cur)
                      (u32 (paired_counter.get_cnt2 cur + 1))) lin).
Proof.
  induction sched as [| a sched IH]; intros h.
  - exists 0%nat. split; [reflexivity |]. cbn.
    destruct (paired_counter.get_cnt2 (sptr_header_base.references_ h) =? 0) eqn:E.
    + reflexivity.
    + unfold atomic_paired_counter.compare_exchange_weak, atomic.compare_exchange_weak,
        atomic.compare_exchange_strong, paired_counter.word, quiet. cbn.
      now rewrite Z.eqb_refl.
  - cbn [app sptr_header_base.weak_lock_loop].
    destruct (paired_counter.get_cnt2 (sptr_header_base.references_ h) =? 0) eqn:E.
    + exists 0%nat. split; [lia |]. cbn. now rewrite E.
    + unfold atomic_paired_counter.compare_exchange_weak, atomic.compare_exchange_weak,
        atomic.compare_exchange_strong, paired_counter.word.
      destruct (IH (before a h)) as (n & Hn & Hrun).
      destruct (spurious a) eqn:Es.
      * exists (S n). split; [cbn; lia |].
        rewrite set_references_same. cbn [firstn]. now rewrite interfere_cons.
      * destruct (sptr_header_base.references_ (before a h)
                  =? sptr_header_base.references_ h) eqn:Ec.
        -- exists 1%nat. split; [cbn; lia |].
           apply Z.eqb_eq in Ec.
           change (interfere (firstn 1 (a :: sched)) h) with (before a h).
           cbn zeta. rewrite Ec, E. reflexivity.
        -- exists (S n). split; [cbn; lia |].
           rewrite set_references_same. cbn [firstn]. now rewrite interfere_cons.
Qed.

Lemma lock_lanes c1 c2 :
  int32 c1 ->
  paired_counter.get_cnt1 (paired_counter.make c1 (u32 (c2 + 1))) = c1
  /\ paired_counter.get_cnt2 (paired_counter.make c1 (u32 (c2 + 1))) = (c2 + 1) mod 2 ^ 32.
Proof.
  intros H. rewrite get_cnt1_make, get_cnt2_make. split; [now apply i32_id | lanes].
Qed.

Lemma get_ptr_from_header p :
  0 <= p < 2 ^ 48 -> counted_ptr.get_ptr (shared_ptr.from_header p) = p.
Proof.
  intros Hp. unfold shared_ptr.from_header.
  rewrite get_ptr_alt, make_word_alt by assumption. lanes.
Qed.

Lemma get_ptr_range w : 0 <= counted_ptr.get_ptr w < 2 ^ 48.
Proof. rewrite get_ptr_alt. lanes. Qed.

(** C4.  [weak_lock], and with it [weak_ptr::lock] on a non-null weak handle,
    succeeds exactly when [strong.c2 > 0] in the state [lin] of the block at
    its last atomic access (the state reached from the initial one by the
    interference that ran before that access).  On success the strong counter
    becomes [PC(c1, c2 + 1)]: [c2] one higher, [c1] as it was, and [lock]
    returns the handle [(0, p)] of the block.  On failure the block is left as
    it was met and [lock] returns the null handle. *)
Theorem weak_lock_promotes (sched : list (attempt sptr_header_base.t))
  (cp_header_ : Z) (m : memory) (h : sptr_header_base.t) :
  counted_ptr.get_ptr cp_header_ <> 0 ->
  blocks m !! counted_ptr.get_ptr cp_header_ = Some h ->
  let p := counted_ptr.get_ptr cp_header_ in
  let fair := sched ++ [Attempt quiet false] in
  exists n, (n <= length sched)%nat /\
    let lin := interfere (firstn n sched) h in
    let c1 := paired_counter.get_cnt1 (sptr_header_base.references_ lin) in
    let c2 := paired_counter.get_cnt2 (sptr_header_base.references_ lin) in
    (0 < c2 ->
     exists h',
       sptr_header_base.weak_lock fair h = Some (true, h')
       /\ paired_counter.get_cnt1 (sptr_header_base.references_ h') = c1
       /\ paired_counter.get_cnt2 (sptr_header_base.references_ h') = (c2 + 1) mod 2 ^ 32
       /\ sptr_header_base.weak_references_ h' = sptr_header_base.weak_references_ lin
       /\ sptr_header_base.pointer_ h' = sptr_header_base.pointer_ lin
       /\ weak_ptr.lock fair cp_header_ m
          = Some (shared_ptr.from_header p,
                  {| blocks := <[p := h']> (blocks m); calls := calls m |})
       /\ counted_ptr.get_ptr (shared_ptr.from_header p) = p)
    /\ (c2 = 0 ->
        sptr_header_base.weak_lock fair h = Some (false, lin)
        /\ weak_ptr.lock fair cp_header_ m
           = Some (shared_ptr.null,
                   {| blocks := <[p := lin]> (blocks m); calls := calls m |})
        /\ counted_ptr.get_ptr shared_ptr.null = 0)
    /\ 0 <= c2.
Proof.
  intros Hp Hh p fair.
  destruct (weak_lock_loop_lin sched h) as (n & Hn & Hrun).
  exists n. split; [exact Hn |]. cbn zeta in *.
  set (lin := interfere (firstn n sched) h) in *.
  pose proof (get_cnt2_range (sptr_header_base.references_ lin)) as Hc2.
  pose proof (get_cnt1_range (sptr_header_base.references_ lin)) as Hc1.
  assert (Hwl : sptr_header_base.weak_lock fair h
                = sptr_header_base.weak_lock_loop fair (sptr_header_base.references_ h) h)
    by reflexivity.
  subst p fair.
  unfold weak_ptr.lock. rewrite (proj2 (Z.eqb_neq _ _) Hp), Hh.
  cbn [mbind option_bind]. rewrite Hwl, Hrun.
  repeat split.
  - intros Hpos. rewrite (proj2 (Z.eqb_neq _ _)) by lia.
    eexists. split; [reflexivity |].
    destruct (lock_lanes _ (paired_counter.get_cnt2 (sptr_header_base.references_ lin)) Hc1).
    cbn. repeat split; try assumption.
    apply get_ptr_from_header, get_ptr_range.
  - rewrite H. reflexivity.
  - rewrite H. reflexivity.
  - lia.
Qed.

Lemma weak_lock_promotes_witness :
  let h := sptr_header_base.make 77 in
  let m := {| blocks := {[ 4096 := h ]}; calls := [] |} in
  let cp := counted_ptr.make_word 0 4096 in
  weak_ptr.lock [Attempt quiet false] cp m
  = Some (shared_ptr.from_header 4096,
          {| blocks := <[4096 := sptr_header_base.set_references (paired_counter.make 0 2) h]>
                         {[ 4096 := h ]};
             calls := [] |}).
Proof.
  intros h m cp.
  assert (Hp : counted_ptr.get_ptr cp <> 0) by (vm_compute; discriminate).
  assert (Hh : blocks m !! counted_ptr.get_ptr cp = Some h) by reflexivity.
  destruct (weak_lock_promotes [] cp m h Hp Hh) as (n & Hn & Hok & _).
  assert (n = 0%nat) as -> by (cbn in Hn; lia).
  destruct Hok as (h' & Hwl & _ & _ & _ & _ & Hlock & _); [vm_compute; reflexivity |].
  cbn in Hwl. injection Hwl as <-.
  exact Hlock.
Defined.

(** ** The cell: [_enter] and [load] *)

Lemma get_ptr_incr_ctr w : counted_ptr.get_ptr (counted_ptr.incr_ctr w) = counted_ptr.get_ptr w.
Proof.
  unfold counted_ptr.incr_ctr. rewrite !get_ptr_alt, set_ctr_alt. lanes.
Qed.

Lemma get_ctr_incr_ctr w :
  counted_ptr.get_ctr (counted_ptr.incr_ctr w) = i16 (counted_ptr.get_ctr w + 1).
Proof.
  unfold counted_ptr.incr_ctr. rewrite !get_ctr_alt, set_ctr_alt. lanes.
Qed.

Lemma get_ptr_set_ctr c w : counted_ptr.get_ptr (counted_ptr.set_ctr c w) = counted_ptr.get_ptr w.
Proof. rewrite !get_ptr_alt, set_ctr_alt. lanes. Qed.

Lemma get_ctr_set_ctr c w : counted_ptr.get_ctr (counted_ptr.set_ctr c w) = i16 c.
Proof. rewrite !get_ctr_alt, set_ctr_alt. lanes. Qed.

(** The local copy that [_enter] increments equals the word it left in the cell. *)
Lemma incr_ctr_is_cell w :
  word64 w -> counted_ptr.incr_ctr w = snd (atomic_counted_ptr.fetch_add 1 w).
Proof.
  intros Hw. unfold counted_ptr.incr_ctr, atomic_counted_ptr.fetch_add, atomic.fetch_add.
  cbn [snd]. rewrite set_ctr_alt, get_ctr_alt, make_word_ctr_alt. lanes.
Qed.

Lemma make_word_lanes c p :
  0 <= p < 2 ^ 48 ->
  counted_ptr.get_ctr (counted_ptr.make_word c p) = i16 c
  /\ counted_ptr.get_ptr (counted_ptr.make_word c p) = p.
Proof.
  intros Hp. rewrite get_ctr_alt, get_ptr_alt, make_word_alt by assumption. lanes.
Qed.

Lemma unhold_zero h :
  word64 (sptr_header_base.references_ h) -> sptr_header_base.unhold 0 h = h.
Proof.
  intros Hr. unfold sptr_header_base.unhold, atomic_paired_counter.fetch_sub,
    atomic.fetch_sub, paired_counter.word. cbn [snd].
  change (paired_counter.make (i16 0) 0) with 0.
  replace (u64 (sptr_header_base.references_ h - 0)) with (sptr_header_base.references_ h)
    by lanes.
  apply set_references_same.
Qed.

Section cell_protocol.

(** What other threads do to the cell and the free store while [_enter] runs:
    [e1] before the compare-exchange of [_try_leave], [e2] before [unhold]. *)
Variables e1 e2 : world -> world.

Lemma enter_keeps_ptr w cur w1 :
  atomic_shared_ptr._enter e1 e2 w = Some (cur, w1) ->
  counted_ptr.get_ptr cur = counted_ptr.get_ptr (cptr_hdr_ w).
Proof.
  unfold atomic_shared_ptr._enter, atomic_counted_ptr.fetch_add, atomic.fetch_add.
  destruct (_ && _).
  - destruct (atomic_shared_ptr._try_leave _ _ _) as [[] cell3].
    + destruct (update_block _ _ _); cbn; [| discriminate].
      intros [= <- _]. now rewrite get_ptr_set_ctr, get_ptr_incr_ctr.
    + intros [= <- _]. apply get_ptr_incr_ctr.
  - intros [= <- _]. apply get_ptr_incr_ctr.
Qed.

(** Without normalisation [_enter] is the fetch-add alone. *)
Lemma enter_plain w :
  counted_ptr.get_ptr (cptr_hdr_ w) = 0
  \/ counted_ptr.get_ctr (counted_ptr.incr_ctr (cptr_hdr_ w)) < 2 ^ 14 ->
  atomic_shared_ptr._enter e1 e2 w
  = Some (counted_ptr.incr_ctr (cptr_hdr_ w),
          set_cell (snd (atomic_counted_ptr.fetch_add 1 (cptr_hdr_ w))) w).
Proof.
  intros H. unfold atomic_shared_ptr._enter, atomic_counted_ptr.fetch_add, atomic.fetch_add.
  rewrite get_ptr_incr_ctr. change (Z.shiftl 1 14) with (2 ^ 14).
  destruct H as [-> | H].
  - now rewrite andb_false_r.
  - now rewrite (proj2 (Z.leb_gt _ _) H).
Qed.

(** C1.  [load] first performs [_enter], whose fetch-add raises the cell's
    16-bit counter by one and keeps the pointer.  If the pointer seen is null,
    [load] returns the empty handle and the free store is untouched.
    Otherwise it adds [PC(1, 1)] to the strong counter of the block seen and
    returns the handle [(0, p)] over that block. *)
Theorem load_enters_then_acquires (e3 : world -> world) (w : world) :
  let old := cptr_hdr_ w in
  let p := counted_ptr.get_ptr old in
  let cell1 := snd (atomic_counted_ptr.fetch_add 1 old) in
  (counted_ptr.get_ctr cell1 = i16 (counted_ptr.get_ctr old + 1)
   /\ counted_ptr.get_ptr cell1 = p)
  /\ (p = 0 ->
      atomic_shared_ptr._enter e1 e2 w = Some (counted_ptr.incr_ctr old, set_cell cell1 w)
      /\ atomic_shared_ptr.load e1 e2 e3 w = Some (shared_ptr.null, set_cell cell1 w)
      /\ mem (set_cell cell1 w) = mem w)
  /\ (p <> 0 ->
      forall cur w1 hb,
        atomic_shared_ptr._enter e1 e2 w = Some (cur, w1) ->
        blocks (mem (e3 w1)) !! p = Some hb ->
        counted_ptr.get_ptr cur = p
        /\ atomic_shared_ptr.load e1 e2 e3 w
           = Some (counted_ptr.make_word 0 p,
                   set_mem
                     {| blocks :=
                          <[p := sptr_header_base.acquire (paired_counter.make 1 1) hb]>
                            (blocks (mem (e3 w1)));
                        calls := calls (mem (e3 w1)) |} (e3 w1))
        /\ sptr_header_base.references_
             (sptr_header_base.acquire (paired_counter.make 1 1) hb)
           = u64 (sptr_header_base.references_ hb + paired_counter.make 1 1)
        /\ counted_ptr.get_ctr (counted_ptr.make_word 0 p) = 0
        /\ counted_ptr.get_ptr (counted_ptr.make_word 0 p) = p)
  /\ (p <> 0 -> counted_ptr.get_ctr (counted_ptr.incr_ctr old) < 2 ^ 14 ->
      atomic_shared_ptr._enter e1 e2 w = Some (counted_ptr.incr_ctr old, set_cell cell1 w)).
Proof.
  intros old p cell1.
  pose proof (fetch_add_lanes 1 old) as (_ & Hc & Hq).
  split; [split; assumption |].
  split; [| split].
  - intros Hp. pose proof (enter_plain w (or_introl Hp)) as He.
    split; [exact He |]. split; [| reflexivity].
    unfold atomic_shared_ptr.load. rewrite He. cbn [mbind option_bind].
    fold old. rewrite get_ptr_incr_ctr. fold p. now rewrite Hp.
  - intros Hp cur w1 hb He Hb.
    pose proof (enter_keeps_ptr _ _ _ He) as Hcur. fold old p in Hcur.
    split; [exact Hcur |].
    split; [| split].
    + unfold atomic_shared_ptr.load. rewrite He. cbn [mbind option_bind].
      rewrite Hcur, (proj2 (Z.eqb_neq _ _) Hp).
      unfold update_block. rewrite Hb. reflexivity.
    + reflexivity.
    + pose proof (make_word_lanes 0 p (get_ptr_range old)) as [H1 H2].
      split; assumption.
  - intros _ Hlt. apply enter_plain. now right.
Qed.

(** ** The cell: normalisation in [_enter] *)

(** When [_enter] normalises and its compare-exchange succeeds, the cell's
    counter goes from [c >= 2^14] to 0, and [unhold] is called after
    [set_ctr( 0 )], that is with the count 0: the block stays as it was. *)
Lemma enter_normalize_unholds_zero (w : world) (hb : sptr_header_base.t) :
  let old := cptr_hdr_ w in
  let p := counted_ptr.get_ptr old in
  let ctrl_ptr := counted_ptr.incr_ctr old in
  let w1 := set_cell (snd (atomic_counted_ptr.fetch_add 1 old)) w in
  let w3 := set_cell (counted_ptr.make_word 0 p) (e1 w1) in
  2 ^ 14 <= counted_ptr.get_ctr ctrl_ptr ->
  p <> 0 ->
  cptr_hdr_ (e1 w1) = ctrl_ptr ->
  blocks (mem (e2 w3)) !! p = Some hb ->
  word64 (sptr_header_base.references_ hb) ->
  exists w',
    atomic_shared_ptr._enter e1 e2 w = Some (counted_ptr.set_ctr 0 ctrl_ptr, w')
    /\ cptr_hdr_ w' = cptr_hdr_ (e2 w3)
    /\ blocks (mem w') = blocks (mem (e2 w3))
    /\ blocks (mem w') !! p = Some hb.
Proof.
  intros old p ctrl_ptr w1 w3 Hc Hp Hcas Hb Hr.
  subst old p ctrl_ptr w1 w3.
  unfold atomic_shared_ptr._enter, atomic_shared_ptr._try_leave,
    atomic_counted_ptr.compare_exchange_strong, atomic.compare_exchange_strong.
  change (atomic_counted_ptr.fetch_add 1 (cptr_hdr_ w))
    with (cptr_hdr_ w, snd (atomic_counted_ptr.fetch_add 1 (cptr_hdr_ w))).
  cbv beta iota zeta.
  change (Z.shiftl 1 14) with (2 ^ 14).
  rewrite (proj2 (Z.leb_le _ _) Hc), Hcas, Z.eqb_refl, Z.sub_diag.
  rewrite !get_ptr_set_ctr, !get_ctr_set_ctr, !get_ptr_incr_ctr.
  rewrite (proj2 (Z.eqb_neq _ _) Hp). cbn [andb negb].
  change (i16 0) with 0.
  unfold update_block. rewrite Hb. cbn [mbind option_bind].
  rewrite (unhold_zero hb Hr).
  eexists. split; [reflexivity |]. cbn.
  rewrite (insert_id _ _ _ Hb). auto.
Qed.

End cell_protocol.

Lemma load_enters_then_acquires_witness :
  let hb := sptr_header_base.make 77 in
  let w := {| cptr_hdr_ := counted_ptr.make_word 5 4096;
              mem := {| blocks := {[ 4096 := hb ]}; calls := [] |} |} in
  atomic_shared_ptr.load quiet quiet quiet w
  = Some (counted_ptr.make_word 0 4096,
          {| cptr_hdr_ := counted_ptr.make_word 6 4096;
             mem := {| blocks :=
                         <[4096 := sptr_header_base.acquire (paired_counter.make 1 1) hb]>
                           {[ 4096 := hb ]};
                       calls := [] |} |}).
Proof.
  intros hb w.
  assert (Hp : counted_ptr.get_ptr (cptr_hdr_ w) <> 0) by (vm_compute; discriminate).
  assert (He : atomic_shared_ptr._enter quiet quiet w
               = Some (counted_ptr.make_word 6 4096,
                       set_cell (counted_ptr.make_word 6 4096) w))
    by (vm_compute; reflexivity).
  assert (Hb : blocks (mem (quiet (set_cell (counted_ptr.make_word 6 4096) w)))
               !! counted_ptr.get_ptr (cptr_hdr_ w) = Some hb) by reflexivity.
  exact (proj1 (proj2
    (proj1 (proj2 (proj2 (load_enters_then_acquires quiet quiet quiet w))) Hp _ _ _ He Hb))).
Defined.

(** C2 on a concrete cell.  The cell holds [(2^14 - 1, 0x1000)] and the block
    at [0x1000] has the strong counter [PC(2^14 - 1, 1)].  [_enter] raises the
    cell's counter to [2^14], its compare-exchange succeeds and takes all
    [2^14] credits from the cell, and the block's strong counter is still
    [PC(2^14 - 1, 1)] afterwards: [strong.c1] did not go down by [2^14]. *)
Theorem enter_normalization_leaks :
  let hb := {| sptr_header_base.references_ := paired_counter.make 16383 1;
               sptr_header_base.weak_references_ := 0;
               sptr_header_base.pointer_ := 77 |} in
  let w := {| cptr_hdr_ := counted_ptr.make_word 16383 4096;
              mem := {| blocks := {[ 4096 := hb ]}; calls := [] |} |} in
  atomic_shared_ptr._enter quiet quiet w
  = Some (counted_ptr.make_word 0 4096,
          {| cptr_hdr_ := counted_ptr.make_word 0 4096;
             mem := {| blocks := {[ 4096 := hb ]}; calls := [] |} |})
  /\ sptr_header_base.unhold 16384 hb
     = sptr_header_base.set_references (paired_counter.make (-1) 1) hb
  /\ paired_counter.make 16383 1 <> paired_counter.make (16383 - 16384) 1.
Proof.
  vm_compute. repeat split; discriminate || reflexivity.
Qed.

(** ** The single-lane compare-exchange of the atomic paired counter *)

(** When the lane read differs from [expected], all four members publish the
    lane read, return false and leave the counter alone. *)
Lemma single_lane_cas_mismatch (env : Z -> Z) (sched : list (attempt Z))
  (expected desired counter_ : Z) :
  (paired_counter.get_cnt1 counter_ <> expected ->
   atomic_paired_counter.compare_exchange_strong_c1 env expected desired counter_
   = (false, paired_counter.get_cnt1 counter_, counter_)
   /\ atomic_paired_counter.compare_exchange_weak_c1 sched expected desired counter_
      = Some (false, paired_counter.get_cnt1 counter_, counter_))
  /\ (paired_counter.get_cnt2 counter_ <> expected ->
      atomic_paired_counter.compare_exchange_strong_c2 env expected desired counter_
      = (false, paired_counter.get_cnt2 counter_, counter_)
      /\ atomic_paired_counter.compare_exchange_weak_c2 sched expected desired counter_
         = Some (false, paired_counter.get_cnt2 counter_, counter_)).
Proof.
  unfold atomic_paired_counter.compare_exchange_strong_c1,
    atomic_paired_counter.compare_exchange_weak_c1,
    atomic_paired_counter.compare_exchange_strong_c2,
    atomic_paired_counter.compare_exchange_weak_c2,
    atomic_paired_counter.load, atomic.load.
  split; intros H; rewrite (proj2 (Z.eqb_neq _ _) H); split; reflexivity.
Qed.

(** When they succeed, the word stored is the integer [desired] itself,
    widened to 64 bits, not the pair with one lane replaced. *)
Lemma single_lane_cas_success (env : Z -> Z) (expected desired counter_ : Z) :
  env counter_ = counter_ ->
  (paired_counter.get_cnt1 counter_ = expected ->
   atomic_paired_counter.compare_exchange_strong_c1 env expected desired counter_
   = (true, expected, atomic_paired_counter.of_int32 desired))
  /\ (paired_counter.get_cnt2 counter_ = expected ->
      atomic_paired_counter.compare_exchange_strong_c2 env expected desired counter_
      = (true, expected, atomic_paired_counter.of_uint32 desired)).
Proof.
  intros He.
  unfold atomic_paired_counter.compare_exchange_strong_c1,
    atomic_paired_counter.compare_exchange_strong_c2,
    atomic_paired_counter.compare_exchange_strong, atomic.compare_exchange_strong,
    atomic_paired_counter.load, atomic.load, paired_counter.word.
  split; intros H; rewrite (proj2 (Z.eqb_eq _ _) H), He, Z.eqb_refl; reflexivity.
Qed.

(** C6 on a concrete counter.  On [PC(5, 7)], the call
    [compare_exchange_strong_c1(expected = 5, desired = 6)] returns true and
    leaves [PC(0, 6)]: [c1] is not 6 and [c2] has changed.  The weak form does
    the same, and the [_c2] forms with [expected = 7], [desired = 9] leave
    [PC(0, 9)], zeroing [c1].  The overload that takes the whole pair as
    [expected] leaves [PC(6, 7)]. *)
Theorem single_lane_cas_overwrites_word :
  let counter_ := paired_counter.make 5 7 in
  atomic_paired_counter.compare_exchange_strong_c1 quiet 5 6 counter_
  = (true, 5, paired_counter.make 0 6)
  /\ atomic_paired_counter.compare_exchange_weak_c1 [Attempt quiet false] 5 6 counter_
     = Some (true, 5, paired_counter.make 0 6)
  /\ atomic_paired_counter.compare_exchange_strong_c2 quiet 7 9 counter_
     = (true, 7, paired_counter.make 0 9)
  /\ atomic_paired_counter.compare_exchange_weak_c2 [Attempt quiet false] 7 9 counter_
     = Some (true, 7, paired_counter.make 0 9)
  /\ atomic_paired_counter.compare_exchange_weak_c1_pair false counter_ 6 counter_
     = (true, counter_, paired_counter.make 6 7)
  /\ paired_counter.make 0 6 <> paired_counter.make 6 7
  /\ paired_counter.make 0 9 <> paired_counter.make 5 9.
Proof.
  vm_compute. repeat split; discriminate || reflexivity.
Qed.

(** ** What the weak counter counts *)

Lemma release_keeps_weak count h :
  sptr_header_base.weak_references_ (snd (sptr_header_base.release quiet count h))
  = sptr_header_base.weak_references_ h.
Proof.
  unfold sptr_header_base.release, atomic_paired_counter.fetch_sub, atomic.fetch_sub, quiet.
  destruct (paired_counter.eqb _ _); [destruct (_ =? 0) |]; reflexivity.
Qed.

Lemma release_weak_one h :
  sptr_header_base.weak_references_
    (snd (sptr_header_base.release_weak quiet (paired_counter.make 0 1) h))
  = u64 (sptr_header_base.weak_references_ h - 1).
Proof.
  unfold sptr_header_base.release_weak, atomic_paired_counter.fetch_sub,
    atomic.fetch_sub, quiet, paired_counter.word.
  change (paired_counter.make 0 1) with 1.
  destruct (paired_counter.eqb _ _); [destruct (_ =? 0) |]; reflexivity.
Qed.

Lemma interfere_quiet (spurs : list bool) n (h : sptr_header_base.t) :
  interfere (firstn n (map (Attempt quiet) spurs)) h = h.
Proof.
  revert n. induction spurs as [| b spurs IH]; intros [| n]; try reflexivity.
  cbn [map firstn]. rewrite interfere_cons. apply IH.
Qed.

Lemma weak_lock_keeps_weak spurs h ok h' :
  sptr_header_base.weak_lock (map (Attempt quiet) spurs ++ [Attempt quiet false]) h
  = Some (ok, h') ->
  sptr_header_base.weak_references_ h' = sptr_header_base.weak_references_ h.
Proof.
  unfold sptr_header_base.weak_lock, atomic_paired_counter.load, atomic.load.
  destruct (weak_lock_loop_lin (map (Attempt quiet) spurs) h) as (n & _ & Hrun).
  cbv zeta in Hrun. rewrite interfere_quiet in Hrun. rewrite Hrun.
  destruct (_ =? 0); intros [= _ <-]; reflexivity.
Qed.

Lemma step_keeps_balance o s s' :
  lifecycle.step o s = Some s' -> weak_balanced s -> weak_balanced s'.
Proof.
  unfold lifecycle.step, weak_balanced.
  destruct (lifecycle.header_deleted s); [discriminate |].
  destruct o.
  - destruct (1 <=? _)%nat; [| discriminate]. intros [= <-]. auto.
  - destruct (1 <=? _)%nat; [| discriminate].
    pose proof (release_keeps_weak (paired_counter.make ctr 1) (lifecycle.hdr s)) as Hk.
    destruct (sptr_header_base.release _ _ _) as [ks h]. intros [= <-]. cbn in *. congruence.
  - destruct (1 <=? _)%nat; [| discriminate]. intros [= <-] Hs. cbn.
    unfold atomic_paired_counter.fetch_add, atomic.fetch_add, paired_counter.word.
    rewrite Hs. change (paired_counter.make 0 1) with 1. lanes.
  - destruct (Nat.leb_spec 1 (lifecycle.weak_handles s)); [| discriminate].
    pose proof (release_weak_one (lifecycle.hdr s)) as Hk.
    destruct (sptr_header_base.release_weak _ _ _) as [ks h]. intros [= <-] Hs. cbn in *.
    rewrite Hk, Hs. lanes.
  - destruct (1 <=? _)%nat; [| discriminate].
    destruct (sptr_header_base.weak_lock _ _) as [[ok h] |] eqn:E; [| discriminate].
    cbn. intros [= <-] Hs. cbn. rewrite <- Hs. eapply weak_lock_keeps_weak, E.
  - destruct (1 <=? _)%nat; [| discriminate]. intros [= <-]. auto.
  - destruct (1 <=? _)%nat; [| discriminate]. intros [= <-]. auto.
  - pose proof (release_keeps_weak (paired_counter.make 1 0) (lifecycle.hdr s)) as Hk.
    destruct (sptr_header_base.release _ _ _) as [ks h]. intros [= <-]. cbn in *. congruence.
Qed.

Lemma run_keeps_balance ops : forall s s',
  lifecycle.run ops s = Some s' -> weak_balanced s -> weak_balanced s'.
Proof.
  induction ops as [| o ops IH]; intros s s'; cbn.
  - intros [= <-]. auto.
  - destruct (lifecycle.step o s) as [s1 |] eqn:E; cbn; [| discriminate].
    intros Hrun Hs. eapply IH; [exact Hrun |]. eapply step_keeps_balance; eauto.
Qed.

(** C7, as the code has it.  In every reachable state of a control block the
    weak counter's [c2] equals the number of live weak handles (modulo 2^32):
    the constructor sets the weak counter to [PC(0, 0)], no implicit weak
    reference is counted for the strong references, and every handle and cell
    operation preserves the equality. *)
Theorem weak_counter_counts_weak_handles (ptr : Z) (s : lifecycle.state) :
  lifecycle.reachable ptr s ->
  sptr_header_base.weak_count (lifecycle.hdr s)
  = Z.of_nat (lifecycle.weak_handles s) mod 2 ^ 32
  /\ sptr_header_base.weak_references_ (lifecycle.hdr s)
     = u64 (Z.of_nat (lifecycle.weak_handles s))
  /\ sptr_header_base.weak_count (lifecycle.hdr (lifecycle.init ptr)) = 0.
Proof.
  intros [ops Hrun].
  assert (Hs : weak_balanced s)
    by (eapply run_keeps_balance; [exact Hrun | reflexivity]).
  unfold weak_balanced in Hs.
  split; [| split; [exact Hs | reflexivity]].
  unfold sptr_header_base.weak_count, atomic_paired_counter.load, atomic.load,
    paired_counter.get_cnt2.
  rewrite Hs. lanes.
Qed.

Lemma weak_counter_counts_weak_handles_witness :
  let s := {| lifecycle.hdr :=
                {| sptr_header_base.references_ := paired_counter.make 0 2;
                   sptr_header_base.weak_references_ := 2;
                   sptr_header_base.pointer_ := 77 |};
              lifecycle.shared_handles := 2;
              lifecycle.weak_handles := 2;
              lifecycle.hooks := [] |} in
  lifecycle.reachable 77 s
  /\ sptr_header_base.weak_count (lifecycle.hdr s) = Z.of_nat 2 mod 2 ^ 32.
Proof.
  intros s.
  assert (Hr : lifecycle.reachable 77 s)
    by (exists [lifecycle.weak_copy; lifecycle.shared_copy; lifecycle.weak_copy;
                lifecycle.weak_lock [true]; lifecycle.shared_destroy 0];
        vm_compute; reflexivity).
  split; [exact Hr |].
  exact (proj1 (weak_counter_counts_weak_handles 77 s Hr)).
Defined.

(** C7 as stated fails right after construction: one strong reference exists,
    no weak handle does, and the weak counter's [c2] is 0, not 0 + 1.  With
    one weak handle it is 1, not 2. *)
Lemma weak_counter_has_no_implicit_reference :
  let s0 := lifecycle.init 77 in
  lifecycle.run [] (lifecycle.init 77) = Some s0
  /\ (1 <= lifecycle.shared_handles s0)%nat
  /\ sptr_header_base.weak_count (lifecycle.hdr s0) = 0
  /\ sptr_header_base.weak_count (lifecycle.hdr s0)
     <> Z.of_nat (lifecycle.weak_handles s0) + 1
  /\ exists s1,
       lifecycle.run [lifecycle.weak_copy] (lifecycle.init 77) = Some s1
       /\ (1 <= lifecycle.shared_handles s1)%nat
       /\ sptr_header_base.weak_count (lifecycle.hdr s1)
          <> Z.of_nat (lifecycle.weak_handles s1) + 1.
Proof.
  cbv zeta.
  split; [reflexivity |].
  split; [cbn; lia |].
  split; [reflexivity |].
  split; [vm_compute; discriminate |].
  exists {| lifecycle.hdr := sptr_header_base.acquire_weak (sptr_header_base.make 77);
            lifecycle.shared_handles := 1; lifecycle.weak_handles := 1;
            lifecycle.hooks := [] |}.
  split; [reflexivity |].
  split; [cbn; lia |].
  vm_compute. discriminate.
Qed.

(** ** Null handles *)

Lemma release_allocates_nothing env cp_header_ (m m' : memory) :
  shared_ptr._release env cp_header_ m = Some m' ->
  dom (blocks m') = dom (blocks m).
Proof.
  unfold shared_ptr._release, call_block.
  destruct (negb _); [| now intros [= <-]].
  destruct (blocks m !! counted_ptr.get_ptr cp_header_) as [h |] eqn:E; [| discriminate].
  cbn. intros [= <-]. cbn. apply dom_insert_lookup_L. now rewrite E.
Qed.

Lemma release_defined env cp_header_ (m : memory) :
  counted_ptr.get_ptr cp_header_ = 0 \/ is_Some (blocks m !! counted_ptr.get_ptr cp_header_) ->
  is_Some (shared_ptr._release env cp_header_ m).
Proof.
  unfold shared_ptr._release, call_block. intros [-> | [h Hh]].
  - cbn. eauto.
  - destruct (negb _); [| eauto]. rewrite Hh. cbn. eauto.
Qed.

(** C10.  Constructing a [shared_ptr] from a null raw pointer allocates no
    control block and yields the null handle; [reset] with a null raw pointer
    gives up the old block, allocates none and leaves the null handle.  On
    the null handle [get()] is [nullptr], [use_count()] and [weak_count()] are
    0, the boolean conversion is false, and destroying it releases nothing:
    the free store and the hook calls stay as they are. *)
Theorem null_raw_pointer_gives_null_handle
  (env : sptr_header_base.t -> sptr_header_base.t) (at_ cp_header_ : Z) (m : memory) :
  counted_ptr.get_ptr cp_header_ = 0 \/ is_Some (blocks m !! counted_ptr.get_ptr cp_header_) ->
  shared_ptr.from_raw at_ 0 m = (shared_ptr.null, m)
  /\ (exists m',
        shared_ptr._release env cp_header_ m = Some m'
        /\ shared_ptr.reset_raw env at_ 0 cp_header_ m = Some (shared_ptr.null, m')
        /\ dom (blocks m') = dom (blocks m))
  /\ counted_ptr.get_ptr shared_ptr.null = 0
  /\ (forall m0 : memory,
        shared_ptr.get shared_ptr.null m0 = Some 0
        /\ shared_ptr.use_count shared_ptr.null m0 = Some 0
        /\ shared_ptr.weak_count shared_ptr.null m0 = Some 0
        /\ shared_ptr.to_bool shared_ptr.null m0 = Some false
        /\ shared_ptr.destroy env shared_ptr.null m0 = Some m0).
Proof.
  intros Hcp. split; [reflexivity |]. split; [| split; [reflexivity |]].
  - destruct (release_defined env _ _ Hcp) as [m' Hm'].
    exists m'. split; [exact Hm' |]. split.
    + unfold shared_ptr.reset_raw. rewrite Hm'. reflexivity.
    + eapply release_allocates_nothing, Hm'.
  - intros m0. repeat split.
Qed.

Lemma null_raw_pointer_gives_null_handle_witness :
  let h := sptr_header_base.make 77 in
  let m := {| blocks := {[ 4096 := h ]}; calls := [] |} in
  let cp := counted_ptr.make_word 0 4096 in
  shared_ptr.from_raw 8192 0 m = (shared_ptr.null, m)
  /\ exists m',
       shared_ptr._release quiet cp m = Some m'
       /\ shared_ptr.reset_raw quiet 8192 0 cp m = Some (shared_ptr.null, m')
       /\ dom (blocks m') = dom (blocks m).
Proof.
  intros h m cp.
  assert (Hcp : counted_ptr.get_ptr cp = 0 \/ is_Some (blocks m !! counted_ptr.get_ptr cp))
    by (right; exists h; reflexivity).
  destruct (null_raw_pointer_gives_null_handle quiet 8192 cp m Hcp) as (H1 & H2 & _).
  split; [exact H1 | exact H2].
Defined.

(** * Further properties of the header *)

(** ** Packing and unpacking *)

Lemma i16_id x : int16 x -> i16 x = x.
Proof. lanes. Qed.

Lemma i16_range x : int16 (i16 x).
Proof. lanes. Qed.

Lemma make_word_word64 c p : 0 <= p < 2 ^ 48 -> word64 (counted_ptr.make_word c p).
Proof. intros Hp. rewrite make_word_alt by assumption. lanes. Qed.

(** X1.  A counted pointer built from a 16-bit counter and a 48-bit pointer
    gives both back, and a 64-bit word is rebuilt from its two parts. *)
Theorem counted_ptr_round_trip (c p w : Z) :
  int16 c -> 0 <= p < 2 ^ 48 -> word64 w ->
  counted_ptr.get_ctr (counted_ptr.make_word c p) = c
  /\ counted_ptr.get_ptr (counted_ptr.make_word c p) = p
  /\ word64 (counted_ptr.make_word c p)
  /\ counted_ptr.make_word (counted_ptr.get_ctr w) (counted_ptr.get_ptr w) = w.
Proof.
  intros Hc Hp Hw.
  destruct (make_word_lanes c p Hp) as [H1 H2].
  repeat split; try (apply make_word_word64; assumption).
  - now rewrite H1, i16_id.
  - exact H2.
  - rewrite make_word_alt by apply get_ptr_range.
    rewrite get_ctr_alt, get_ptr_alt. lanes.
Qed.

Lemma counted_ptr_round_trip_witness :
  int16 (-3) /\ 0 <= 4096 < 2 ^ 48 /\ word64 (counted_ptr.make_word (-3) 4096)
  /\ counted_ptr.get_ctr (counted_ptr.make_word (-3) 4096) = -3.
Proof.
  assert (Hc : int16 (-3)) by (vm_compute; split; discriminate || reflexivity).
  assert (Hp : 0 <= 4096 < 2 ^ 48) by (vm_compute; split; discriminate || reflexivity).
  assert (Hw : word64 (counted_ptr.make_word (-3) 4096))
    by (vm_compute; split; discriminate || reflexivity).
  split; [exact Hc | split; [exact Hp | split; [exact Hw |]]].
  exact (proj1 (counted_ptr_round_trip (-3) 4096 _ Hc Hp Hw)).
Defined.

(** X2.  [set_ctr] replaces the counter and keeps the pointer; [set_ptr]
    replaces the pointer and keeps the counter; writing back the counter a
    word already has changes nothing. *)
Theorem counted_ptr_setters (c p w : Z) :
  int16 c -> 0 <= p < 2 ^ 48 -> word64 w ->
  counted_ptr.get_ctr (counted_ptr.set_ctr c w) = c
  /\ counted_ptr.get_ptr (counted_ptr.set_ctr c w) = counted_ptr.get_ptr w
  /\ counted_ptr.get_ptr (counted_ptr.set_ptr p w) = p
  /\ counted_ptr.get_ctr (counted_ptr.set_ptr p w) = counted_ptr.get_ctr w
  /\ counted_ptr.set_ctr (counted_ptr.get_ctr w) w = w.
Proof.
  intros Hc Hp Hw. unfold counted_ptr.set_ptr.
  destruct (make_word_lanes (counted_ptr.get_ctr w) p Hp) as [H1 H2].
  repeat split.
  - now rewrite get_ctr_set_ctr, i16_id.
  - apply get_ptr_set_ctr.
  - exact H2.
  - rewrite H1, get_ctr_alt. lanes.
  - rewrite set_ctr_alt, get_ctr_alt. lanes.
Qed.

Lemma counted_ptr_setters_witness :
  int16 7 /\ 0 <= 8192 < 2 ^ 48 /\ word64 (counted_ptr.make_word 2 4096)
  /\ counted_ptr.get_ptr (counted_ptr.set_ptr 8192 (counted_ptr.make_word 2 4096)) = 8192.
Proof.
  assert (Hc : int16 7) by (vm_compute; split; discriminate || reflexivity).
  assert (Hp : 0 <= 8192 < 2 ^ 48) by (vm_compute; split; discriminate || reflexivity).
  assert (Hw : word64 (counted_ptr.make_word 2 4096))
    by (vm_compute; split; discriminate || reflexivity).
  split; [exact Hc | split; [exact Hp | split; [exact Hw |]]].
  exact (proj1 (proj2 (proj2 (counted_ptr_setters 7 8192 _ Hc Hp Hw)))).
Defined.

(** X3.  A paired counter built from a signed and an unsigned 32-bit value
    gives both back; a 64-bit word is rebuilt from its two lanes; and each of
    the two setters writes its own lane only. *)
Theorem paired_counter_round_trip (c1 c2 w : Z) :
  int32 c1 -> 0 <= c2 < 2 ^ 32 -> word64 w ->
  paired_counter.get_cnt1 (paired_counter.make c1 c2) = c1
  /\ paired_counter.get_cnt2 (paired_counter.make c1 c2) = c2
  /\ paired_counter.make (paired_counter.get_cnt1 w) (paired_counter.get_cnt2 w) = w
  /\ paired_counter.set_counter1 c1 w = paired_counter.make c1 (paired_counter.get_cnt2 w)
  /\ paired_counter.set_counter2 c2 w = paired_counter.make (paired_counter.get_cnt1 w) c2.
Proof.
  intros H1 H2 Hw. repeat split.
  - rewrite get_cnt1_make. now apply i32_id.
  - rewrite get_cnt2_make. lanes.
  - now apply make_get.
  - unfold paired_counter.set_counter1. unfold_pc. lanes.
  - unfold paired_counter.set_counter2. unfold_pc. lanes.
Qed.

Lemma paired_counter_round_trip_witness :
  int32 (-5) /\ 0 <= 9 < 2 ^ 32 /\ word64 (paired_counter.make 1 2)
  /\ paired_counter.get_cnt1 (paired_counter.make (-5) 9) = -5.
Proof.
  assert (H1 : int32 (-5)) by (vm_compute; split; discriminate || reflexivity).
  assert (H2 : 0 <= 9 < 2 ^ 32) by (vm_compute; split; discriminate || reflexivity).
  assert (Hw : word64 (paired_counter.make 1 2))
    by (vm_compute; split; discriminate || reflexivity).
  split; [exact H1 | split; [exact H2 | split; [exact Hw |]]].
  exact (proj1 (paired_counter_round_trip (-5) 9 _ H1 H2 Hw)).
Defined.

(** ** The operators of the paired counter *)

(** X4.  With an rvalue right operand, [l + r] is still the lane-wise sum,
    but [l - r] is computed as [r -= l] and so yields [r - l]: taking an
    rvalue [b] away from [a + b] gives [PC(0, 0) - a], not [a]. *)
Theorem rvalue_minus_is_reversed (a b : Z) :
  paired_counter.add_rvalue a b = paired_counter.add a b
  /\ paired_counter.sub_rvalue a b = paired_counter.sub b a
  /\ paired_counter.sub_rvalue (paired_counter.add a b) b
     = paired_counter.sub (paired_counter.make 0 0) a
  /\ paired_counter.sub_rvalue a a = paired_counter.make 0 0.
Proof.
  split; [| split; [reflexivity | split]].
  - unfold paired_counter.add_rvalue, paired_counter.add_assign, paired_counter.add.
    now rewrite (Z.add_comm (paired_counter.get_cnt1 b)),
      (Z.add_comm (paired_counter.get_cnt2 b)).
  - change (paired_counter.sub_rvalue (paired_counter.add a b) b)
      with (paired_counter.sub b (paired_counter.add a b)).
    unfold paired_counter.sub, paired_counter.add.
    rewrite !get_cnt1_make, !get_cnt2_make.
    apply make_ext; lanes.
  - change (paired_counter.sub_rvalue a a) with (paired_counter.sub a a).
    unfold paired_counter.sub. rewrite !Z.sub_diag. reflexivity.
Qed.

Lemma le_spec a b :
  paired_counter.le a b = true <->
  paired_counter.get_cnt1 a <= paired_counter.get_cnt1 b
  /\ paired_counter.get_cnt2 a <= paired_counter.get_cnt2 b.
Proof. unfold paired_counter.le. rewrite andb_true_iff, !Z.leb_le. tauto. Qed.

(** X5.  [<=] on paired counters is a partial order on 64-bit words
    (reflexive, antisymmetric, transitive), [a >= b] is [b <= a], and [a < b]
    implies [a <= b] and [a != b]; the converse fails: [PC(1, 0) <= PC(1, 1)]
    and they differ, yet [PC(1, 0) < PC(1, 1)] is false. *)
Theorem le_is_partial_order (a b c : Z) :
  word64 a -> word64 b ->
  paired_counter.le a a = true
  /\ (paired_counter.le a b = true -> paired_counter.le b a = true -> a = b)
  /\ (paired_counter.le a b = true -> paired_counter.le b c = true ->
      paired_counter.le a c = true)
  /\ paired_counter.ge a b = paired_counter.le b a
  /\ (paired_counter.lt a b = true ->
      paired_counter.le a b = true /\ paired_counter.neqb a b = true)
  /\ (paired_counter.le (paired_counter.make 1 0) (paired_counter.make 1 1) = true
      /\ paired_counter.neqb (paired_counter.make 1 0) (paired_counter.make 1 1) = true
      /\ paired_counter.lt (paired_counter.make 1 0) (paired_counter.make 1 1) = false).
Proof.
  intros Ha Hb. repeat split.
  - apply le_spec. lia.
  - rewrite !le_spec. intros [] []. apply lanes_inj; auto; lia.
  - rewrite !le_spec. lia.
  - apply le_spec. unfold paired_counter.lt in H.
    apply andb_true_iff in H. rewrite !Z.ltb_lt in H. lia.
  - unfold paired_counter.lt in H. apply andb_true_iff in H. rewrite !Z.ltb_lt in H.
    unfold paired_counter.neqb, paired_counter.word. apply negb_true_iff, Z.eqb_neq.
    intros ->. lia.
Qed.

Lemma le_is_partial_order_witness :
  word64 (paired_counter.make 1 0) /\ word64 (paired_counter.make 1 1)
  /\ paired_counter.le (paired_counter.make 1 0) (paired_counter.make 1 0) = true.
Proof.
  assert (Ha : word64 (paired_counter.make 1 0))
    by (vm_compute; split; discriminate || reflexivity).
  assert (Hb : word64 (paired_counter.make 1 1))
    by (vm_compute; split; discriminate || reflexivity).
  split; [exact Ha | split; [exact Hb |]].
  exact (proj1 (le_is_partial_order _ _ 0 Ha Hb)).
Defined.

(** ** Whole-word arithmetic on the atomic paired counter *)

(** X6.  [fetch_add] and [fetch_sub] of the same count undo each other on
    every 64-bit word.  After [fetch_add(PC(a1, a2))] the low lane is
    [c2 + a2] modulo 2^32 and the carry out of it is added to the high lane
    together with [a1]; when [c2 + a2] stays below 2^32 the result is the
    lane-wise sum. *)
Theorem fetch_add_sub_round_trip (a1 a2 w : Z) :
  word64 w ->
  let arg := paired_counter.make a1 a2 in
  let w' := snd (atomic_paired_counter.fetch_add arg w) in
  let c1 := paired_counter.get_cnt1 w in
  let c2 := paired_counter.get_cnt2 w in
  fst (atomic_paired_counter.fetch_add arg w) = w
  /\ snd (atomic_paired_counter.fetch_sub arg w') = w
  /\ snd (atomic_paired_counter.fetch_add arg (snd (atomic_paired_counter.fetch_sub arg w))) = w
  /\ paired_counter.get_cnt2 w' = (c2 + a2) mod 2 ^ 32
  /\ paired_counter.get_cnt1 w' = i32 (c1 + a1 + (c2 + u32 a2) / 2 ^ 32)
  /\ (c2 + u32 a2 < 2 ^ 32 -> w' = paired_counter.add w arg).
Proof.
  intros Hw arg w' c1 c2. subst arg w' c1 c2.
  destruct (split_word w Hw) as (hi & lo & -> & Hhi & Hlo).
  unfold atomic_paired_counter.fetch_add, atomic_paired_counter.fetch_sub,
    atomic.fetch_add, atomic.fetch_sub, paired_counter.add.
  cbn [fst snd]. unfold_pc.
  repeat split; try (intros; lanes).
Qed.

Lemma fetch_add_sub_round_trip_witness :
  word64 (paired_counter.make 3 4)
  /\ snd (atomic_paired_counter.fetch_sub (paired_counter.make 1 1)
            (snd (atomic_paired_counter.fetch_add (paired_counter.make 1 1)
                    (paired_counter.make 3 4))))
     = paired_counter.make 3 4.
Proof.
  assert (Hw : word64 (paired_counter.make 3 4))
    by (vm_compute; split; discriminate || reflexivity).
  split; [exact Hw |].
  exact (proj1 (proj2 (fetch_add_sub_round_trip 1 1 _ Hw))).
Defined.

(** ** The strong and the weak counter of a control block *)

(** X7.  [hold(n)] and [unhold(n)] take [n] as an [int16_t] and change [c1]
    of the strong counter by that 16-bit value, modulo 2^32, and nothing else:
    [use_count()], [weak_count()] and the object pointer stay under both, each
    undoes the other, and an argument is only seen modulo 2^16. *)
Theorem hold_unhold_round_trip (n : Z) (h : sptr_header_base.t) :
  word64 (sptr_header_base.references_ h) ->
  let c1 := paired_counter.get_cnt1 (sptr_header_base.references_ h) in
  sptr_header_base.unhold n (sptr_header_base.hold n h) = h
  /\ sptr_header_base.hold n (sptr_header_base.unhold n h) = h
  /\ paired_counter.get_cnt1 (sptr_header_base.references_ (sptr_header_base.hold n h))
     = i32 (c1 + i16 n)
  /\ paired_counter.get_cnt1 (sptr_header_base.references_ (sptr_header_base.unhold n h))
     = i32 (c1 - i16 n)
  /\ sptr_header_base.use_count (sptr_header_base.hold n h) = sptr_header_base.use_count h
  /\ sptr_header_base.use_count (sptr_header_base.unhold n h) = sptr_header_base.use_count h
  /\ sptr_header_base.weak_count (sptr_header_base.hold n h) = sptr_header_base.weak_count h
  /\ sptr_header_base.weak_count (sptr_header_base.unhold n h) = sptr_header_base.weak_count h
  /\ sptr_header_base.get_ptr (sptr_header_base.hold n h) = sptr_header_base.get_ptr h
  /\ sptr_header_base.get_ptr (sptr_header_base.unhold n h) = sptr_header_base.get_ptr h
  /\ sptr_header_base.hold (n + 2 ^ 16) h = sptr_header_base.hold n h
  /\ sptr_header_base.unhold (n + 2 ^ 16) h = sptr_header_base.unhold n h.
Proof.
  intros Hr c1. subst c1.
  assert (Hper : i16 (n + 2 ^ 16) = i16 n) by lanes.
  unfold sptr_header_base.hold, sptr_header_base.unhold. rewrite Hper.
  assert (Hm : int16 (i16 n)) by lanes.
  generalize dependent (i16 n). intros m _ Hm.
  destruct h as [r wr p]. cbn in Hr.
  unfold sptr_header_base.use_count,
    sptr_header_base.weak_count, sptr_header_base.get_ptr, sptr_header_base.set_references,
    atomic_paired_counter.fetch_add, atomic_paired_counter.fetch_sub,
    atomic_paired_counter.load, atomic.load, atomic.fetch_add, atomic.fetch_sub,
    paired_counter.word.
  cbn [snd sptr_header_base.references_ sptr_header_base.weak_references_
       sptr_header_base.pointer_].
  destruct (split_word r Hr) as (hi & lo & -> & Hhi & Hlo).
  repeat split; try (f_equal; unfold_pc; lanes); unfold_pc; lanes.
Qed.

Lemma hold_unhold_round_trip_witness :
  let h := sptr_header_base.make 77 in
  word64 (sptr_header_base.references_ h)
  /\ sptr_header_base.unhold 5 (sptr_header_base.hold 5 h) = h.
Proof.
  intros h.
  assert (Hr : word64 (sptr_header_base.references_ h))
    by (vm_compute; split; discriminate || reflexivity).
  split; [exact Hr |].
  exact (proj1 (hold_unhold_round_trip 5 h Hr)).
Defined.

Lemma acquire_release_keeps (count : Z) (h : sptr_header_base.t) :
  word64 (sptr_header_base.references_ h) -> word64 count ->
  sptr_header_base.references_ h <> 0 ->
  sptr_header_base.release quiet count (sptr_header_base.acquire count h) = ([], h).
Proof.
  intros Hr Hc Hne. destruct h as [r wr p]. cbn in Hr, Hne.
  unfold sptr_header_base.release, sptr_header_base.acquire,
    sptr_header_base.set_references,
    atomic_paired_counter.fetch_add, atomic_paired_counter.fetch_sub,
    atomic.fetch_add, atomic.fetch_sub, paired_counter.eqb, paired_counter.word.
  cbn [fst snd sptr_header_base.references_ sptr_header_base.weak_references_
       sptr_header_base.pointer_].
  assert (E : (u64 (r + count) =? count) = false) by (apply Z.eqb_neq; lanes).
  rewrite E. do 2 f_equal. lanes.
Qed.

(** X8.  [acquire(count)] followed by [release(count)] on a block whose strong
    counter is not [PC(0, 0)] calls no hook and restores the block.  On a
    block whose strong counter is [PC(0, 0)], the same pair calls the hook that
    destroys the object. *)
Theorem acquire_release_round_trip (c1 c2 : Z) (h : sptr_header_base.t) :
  word64 (sptr_header_base.references_ h) ->
  let count := paired_counter.make c1 c2 in
  (sptr_header_base.references_ h <> paired_counter.make 0 0 ->
   sptr_header_base.release quiet count (sptr_header_base.acquire count h) = ([], h))
  /\ (sptr_header_base.references_ h = paired_counter.make 0 0 ->
      In (sptr_header_base._delete_object (sptr_header_base.pointer_ h))
        (fst (sptr_header_base.release quiet count (sptr_header_base.acquire count h)))).
Proof.
  intros Hr count.
  assert (Hc : word64 count) by apply make_word64.
  change (paired_counter.make 0 0) with 0.
  split.
  - intros Hne. now apply acquire_release_keeps.
  - destruct h as [r wr p]. cbn in Hr |- *. intros ->.
    unfold sptr_header_base.release, sptr_header_base.acquire,
      sptr_header_base.set_references, sptr_header_base.get_ptr,
      atomic_paired_counter.fetch_add, atomic_paired_counter.fetch_sub,
      atomic_paired_counter.load, atomic.load, atomic.fetch_add, atomic.fetch_sub,
      paired_counter.eqb, paired_counter.word, quiet.
    cbn [fst snd sptr_header_base.references_ sptr_header_base.weak_references_
         sptr_header_base.pointer_].
    assert (E : (u64 (0 + count) =? count) = true) by (apply Z.eqb_eq; lanes).
    rewrite E. destruct (wr =? 0); cbn; auto.
Qed.

Lemma acquire_release_round_trip_witness :
  let h := sptr_header_base.make 77 in
  word64 (sptr_header_base.references_ h)
  /\ sptr_header_base.release quiet (paired_counter.make 1 1)
       (sptr_header_base.acquire (paired_counter.make 1 1) h) = ([], h).
Proof.
  intros h.
  assert (Hr : word64 (sptr_header_base.references_ h))
    by (vm_compute; split; discriminate || reflexivity).
  split; [exact Hr |].
  refine (proj1 (acquire_release_round_trip 1 1 h Hr) _).
  vm_compute. discriminate.
Defined.

(** X9.  [release_weak(count)] never calls the hook that destroys the object.
    It calls the hook that destroys the header exactly when the weak counter
    was [PC(0, 1)] before the subtraction and the strong word it then reads is
    0; the weak counter goes down by [count] and the strong counter is not
    written. *)
Theorem release_weak_hooks (env : sptr_header_base.t -> sptr_header_base.t)
  (count : Z) (h : sptr_header_base.t) :
  let h1 := sptr_header_base.set_weak_references
              (u64 (sptr_header_base.weak_references_ h - count)) h in
  let r := sptr_header_base.release_weak env count h in
  (forall self, ~ In (sptr_header_base._delete_object self) (fst r))
  /\ (In sptr_header_base._delete_header (fst r) <->
      sptr_header_base.weak_references_ h = paired_counter.make 0 1
      /\ sptr_header_base.references_ (env h1) = 0)
  /\ (fst r = [sptr_header_base._delete_header] \/ fst r = [])
  /\ (sptr_header_base.weak_references_ h = paired_counter.make 0 1 -> snd r = env h1)
  /\ (sptr_header_base.weak_references_ h <> paired_counter.make 0 1 -> snd r = h1)
  /\ sptr_header_base.references_ h1 = sptr_header_base.references_ h.
Proof.
  intros h1 r. subst r.
  unfold sptr_header_base.release_weak, atomic_paired_counter.fetch_sub,
    atomic.fetch_sub, atomic_paired_counter.load, atomic.load, paired_counter.eqb,
    paired_counter.word.
  fold h1.
  destruct (Z.eqb_spec (sptr_header_base.weak_references_ h) (paired_counter.make 0 1))
    as [E | E];
    [destruct (Z.eqb_spec (sptr_header_base.references_ (env h1)) 0) as [E0 | E0] |].
  all: cbn [fst snd In].
  all: split; [intros self H; intuition discriminate |].
  all: split; [intuition (try discriminate; try congruence) |].
  all: split; [auto |].
  all: split; [intuition congruence |].
  all: split; [intuition congruence | reflexivity].
Qed.

(** ** What [use_count()] counts *)

Lemma release_strong_word count h :
  sptr_header_base.references_ (snd (sptr_header_base.release quiet count h))
  = u64 (sptr_header_base.references_ h - count)
  /\ sptr_header_base.pointer_ (snd (sptr_header_base.release quiet count h))
     = sptr_header_base.pointer_ h.
Proof.
  unfold sptr_header_base.release, atomic_paired_counter.fetch_sub, atomic.fetch_sub,
    quiet, paired_counter.word.
  destruct (paired_counter.eqb _ _); [destruct (_ =? 0) |]; split; reflexivity.
Qed.

Lemma release_weak_keeps_strong count h :
  sptr_header_base.references_ (snd (sptr_header_base.release_weak quiet count h))
  = sptr_header_base.references_ h
  /\ sptr_header_base.pointer_ (snd (sptr_header_base.release_weak quiet count h))
     = sptr_header_base.pointer_ h.
Proof.
  unfold sptr_header_base.release_weak, atomic_paired_counter.fetch_sub, atomic.fetch_sub,
    quiet.
  destruct (paired_counter.eqb _ _); [destruct (_ =? 0) |]; split; reflexivity.
Qed.

Lemma weak_lock_quiet spurs h :
  sptr_header_base.weak_lock (map (Attempt quiet) spurs ++ [Attempt quiet false]) h
  = if paired_counter.get_cnt2 (sptr_header_base.references_ h) =? 0
    then Some (false, h)
    else Some (true,
               sptr_header_base.set_references
                 (paired_counter.make
                    (paired_counter.get_cnt1 (sptr_header_base.references_ h))
                    (u32 (paired_counter.get_cnt2 (sptr_header_base.references_ h) + 1)))
                 h).
Proof.
  unfold sptr_header_base.weak_lock, atomic_paired_counter.load, atomic.load.
  destruct (weak_lock_loop_lin (map (Attempt quiet) spurs) h) as (n & _ & Hrun).
  cbv zeta in Hrun. now rewrite interfere_quiet in Hrun.
Qed.

(** X10.  [use_count()] moves only by the [c2] of the count a call passes.
    [acquire(count)] adds [c2] of [count] and an undisturbed [release(count)]
    subtracts it, modulo 2^32, whatever the [c1] lanes are: no carry or borrow
    of the high lane reaches the low one.  [hold], [unhold], [acquire_weak]
    and [release_weak] leave it.  An undisturbed [weak_lock()] succeeds exactly
    when [use_count()] is not 0 and then adds one.  None of these calls changes
    the object pointer, and a block just constructed over [ptr] has
    [use_count()] 1 and pointer [ptr]. *)
Theorem use_count_moves_by_c2 (count k : Z) (spurs : list bool)
  (h : sptr_header_base.t) :
  let n := sptr_header_base.use_count h in
  let after_release := snd (sptr_header_base.release quiet count h) in
  let after_release_weak := snd (sptr_header_base.release_weak quiet count h) in
  sptr_header_base.use_count (sptr_header_base.acquire count h)
  = u32 (n + paired_counter.get_cnt2 count)
  /\ sptr_header_base.use_count (sptr_header_base.acquire1 h) = u32 (n + 1)
  /\ sptr_header_base.use_count after_release = u32 (n - paired_counter.get_cnt2 count)
  /\ sptr_header_base.use_count (sptr_header_base.hold k h) = n
  /\ sptr_header_base.use_count (sptr_header_base.unhold k h) = n
  /\ sptr_header_base.use_count (sptr_header_base.acquire_weak h) = n
  /\ sptr_header_base.use_count after_release_weak = n
  /\ (exists h',
        sptr_header_base.weak_lock (map (Attempt quiet) spurs ++ [Attempt quiet false]) h
        = Some (negb (n =? 0), h')
        /\ sptr_header_base.use_count h' = (if n =? 0 then 0 else u32 (n + 1))
        /\ sptr_header_base.get_ptr h' = sptr_header_base.get_ptr h)
  /\ sptr_header_base.get_ptr (sptr_header_base.acquire count h) = sptr_header_base.get_ptr h
  /\ sptr_header_base.get_ptr (sptr_header_base.acquire1 h) = sptr_header_base.get_ptr h
  /\ sptr_header_base.get_ptr after_release = sptr_header_base.get_ptr h
  /\ sptr_header_base.get_ptr (sptr_header_base.acquire_weak h) = sptr_header_base.get_ptr h
  /\ sptr_header_base.get_ptr after_release_weak = sptr_header_base.get_ptr h
  /\ (forall ptr, sptr_header_base.use_count (sptr_header_base.make ptr) = 1
                  /\ sptr_header_base.get_ptr (sptr_header_base.make ptr) = ptr).
Proof.
  intros n after_release after_release_weak.
  pose proof (release_strong_word count h) as [Hrel Hrelp].
  pose proof (release_weak_keeps_strong count h) as [Hrw Hrwp].
  fold after_release in Hrel, Hrelp. fold after_release_weak in Hrw, Hrwp.
  clearbody after_release after_release_weak. subst n.
  unfold sptr_header_base.use_count, sptr_header_base.get_ptr,
    atomic_paired_counter.load, atomic.load.
  rewrite Hrel, Hrelp, Hrw, Hrwp.
  split.
  { unfold sptr_header_base.acquire, atomic_paired_counter.fetch_add, atomic.fetch_add,
      paired_counter.word. cbn. unfold paired_counter.get_cnt2. lanes. }
  split.
  { unfold sptr_header_base.acquire1, atomic_paired_counter.fetch_add, atomic.fetch_add,
      paired_counter.word. cbn [snd sptr_header_base.set_references
                                sptr_header_base.references_].
    change (paired_counter.make 0 1) with 1. unfold paired_counter.get_cnt2. lanes. }
  split.
  { unfold paired_counter.get_cnt2. lanes. }
  split.
  { unfold sptr_header_base.hold, atomic_paired_counter.fetch_add, atomic.fetch_add,
      paired_counter.word. cbn [snd sptr_header_base.set_references
                                sptr_header_base.references_].
    unfold_pc. lanes. }
  split.
  { unfold sptr_header_base.unhold, atomic_paired_counter.fetch_sub, atomic.fetch_sub,
      paired_counter.word. cbn [snd sptr_header_base.set_references
                                sptr_header_base.references_].
    unfold_pc. lanes. }
  split.
  { reflexivity. }
  split.
  { reflexivity. }
  split.
  { rewrite weak_lock_quiet.
    destruct (Z.eqb_spec (paired_counter.get_cnt2 (sptr_header_base.references_ h)) 0)
      as [E | E].
    - exists h. cbn [negb]. repeat split. exact E.
    - eexists. cbn [negb]. split; [reflexivity |]. split; [| reflexivity].
      cbn [sptr_header_base.set_references sptr_header_base.references_].
      rewrite get_cnt2_make. lanes. }
  repeat split.
Qed.

(** ** The split destruction of [shareable] *)

(** X11.  Starting from the live state, in each of the three ways in which one
    [_delete_header] can fall relative to one [_delete_object] (before the
    object's destructor, after it but before the state flips, or after
    [_delete_object] has returned) the object's destructor runs first, the
    header is freed exactly once, and the state ends as
    [object_destroyed | destroy_header].  A [_delete_header] that comes before
    [_delete_object] has started, and a second [_delete_object], fail their
    assertion. *)
Theorem shareable_frees_header_once (evs : list shareable.event)
  (e1 e2 : shareable.t -> option shareable.t) :
  let s0 := {| shareable.state_ := shareable.live; shareable.events := evs |} in
  let done := {| shareable.state_ :=
                   Z.lor shareable.object_destroyed shareable.destroy_header;
                 shareable.events :=
                   evs ++ [shareable.object_destructor; shareable.header_freed] |} in
  shareable._delete_object shareable._delete_header Some s0 = Some done
  /\ shareable._delete_object Some shareable._delete_header s0 = Some done
  /\ (shareable._delete_object Some Some s0 ≫= shareable._delete_header) = Some done
  /\ shareable._delete_header s0 = None
  /\ shareable._delete_object e1 e2 done = None.
Proof.
  cbv -[app]. rewrite <- !app_assoc. repeat split.
Qed.

(** ** Shared and weak handles over the free store *)

Lemma memory_eta (m : memory) : {| blocks := blocks m; calls := calls m |} = m.
Proof. now destruct m. Qed.

Lemma get_ptr_make_word_0 p :
  0 <= p < 2 ^ 48 -> counted_ptr.get_ptr (counted_ptr.make_word 0 p) = p.
Proof. intros Hp. now destruct (make_word_lanes 0 p Hp). Qed.

Lemma get_ctr_make_word_0 p :
  0 <= p < 2 ^ 48 -> counted_ptr.get_ctr (counted_ptr.make_word 0 p) = 0.
Proof. intros Hp. now destruct (make_word_lanes 0 p Hp). Qed.

(** X12.  A handle constructed over a non-null raw pointer owns a fresh block:
    [get()] is the pointer, [use_count()] is 1, [weak_count()] is 0, it is
    unique and converts to true.  Destroying it calls the hook that destroys
    the object and then the hook that destroys the header, once each, on that
    block, and leaves its strong counter at [PC(0, 0)]. *)
Theorem construct_then_destroy (at_ ptr : Z) (m : memory) :
  ptr <> 0 -> 0 < at_ < 2 ^ 48 ->
  let h := counted_ptr.make_word 0 at_ in
  let m1 := allocate at_ (sptr_header_base.make ptr) m in
  shared_ptr.from_raw at_ ptr m = (h, m1)
  /\ shared_ptr.get h m1 = Some ptr
  /\ shared_ptr.use_count h m1 = Some 1
  /\ shared_ptr.weak_count h m1 = Some 0
  /\ shared_ptr.unique h m1 = Some true
  /\ shared_ptr.to_bool h m1 = Some true
  /\ shared_ptr.destroy quiet h m1
     = Some {| blocks :=
                 <[at_ := sptr_header_base.set_references (paired_counter.make 0 0)
                            (sptr_header_base.make ptr)]> (blocks m);
               calls := calls m ++ [(at_, sptr_header_base._delete_object ptr);
                                    (at_, sptr_header_base._delete_header)] |}.
Proof.
  intros Hptr Hat h m1.
  assert (Hp : counted_ptr.get_ptr h = at_) by (apply get_ptr_make_word_0; lia).
  assert (Hc : counted_ptr.get_ctr h = 0) by (apply get_ctr_make_word_0; lia).
  assert (Hne : (counted_ptr.get_ptr h =? 0) = false) by (apply Z.eqb_neq; lia).
  assert (Hb : blocks m1 !! at_ = Some (sptr_header_base.make ptr))
    by apply lookup_insert_eq.
  unfold shared_ptr.from_raw, shared_ptr.get, shared_ptr.use_count, shared_ptr.weak_count,
    shared_ptr.unique, shared_ptr.to_bool, shared_ptr.use_count, shared_ptr.destroy,
    shared_ptr._release, read_block, call_block.
  rewrite (proj2 (Z.eqb_neq _ _) Hptr), Hne, Hp, Hc, Hb. cbn [negb mbind option_bind].
  repeat split.
  subst m1. unfold allocate. cbn [blocks calls]. rewrite insert_insert_eq. reflexivity.
Qed.

Lemma construct_then_destroy_witness :
  (77 <> 0) /\ 0 < 4096 < 2 ^ 48
  /\ shared_ptr.use_count (counted_ptr.make_word 0 4096)
       (allocate 4096 (sptr_header_base.make 77) {| blocks := ∅; calls := [] |}) = Some 1.
Proof.
  assert (H1 : 77 <> 0) by discriminate.
  assert (H2 : 0 < 4096 < 2 ^ 48) by (vm_compute; split; reflexivity).
  split; [exact H1 | split; [exact H2 |]].
  exact (proj1 (proj2 (proj2
    (construct_then_destroy 4096 77 {| blocks := ∅; calls := [] |} H1 H2)))).
Defined.

(** X13.  Copying a handle of a live block gives a handle [(0, p)] of the same
    block and raises [use_count()] by one; destroying the copy calls no hook
    and puts the free store back exactly as it was. *)
Theorem copy_then_destroy (r : Z) (m : memory) (h : sptr_header_base.t) :
  counted_ptr.get_ptr r <> 0 ->
  blocks m !! counted_ptr.get_ptr r = Some h ->
  word64 (sptr_header_base.references_ h) ->
  sptr_header_base.references_ h <> paired_counter.make 0 0 ->
  let p := counted_ptr.get_ptr r in
  let m1 := {| blocks := <[p := sptr_header_base.acquire1 h]> (blocks m);
               calls := calls m |} in
  shared_ptr.copy r m = Some (counted_ptr.make_word 0 p, m1)
  /\ counted_ptr.get_ptr (counted_ptr.make_word 0 p) = p
  /\ shared_ptr.use_count (counted_ptr.make_word 0 p) m1
     = Some ((sptr_header_base.use_count h + 1) mod 2 ^ 32)
  /\ shared_ptr.get (counted_ptr.make_word 0 p) m1 = shared_ptr.get r m
  /\ shared_ptr.destroy quiet (counted_ptr.make_word 0 p) m1 = Some m.
Proof.
  intros Hp Hb Hr Hne p m1.
  pose proof (get_ptr_range r) as Hrange. fold p in Hrange, Hp, Hb.
  assert (Hq : counted_ptr.get_ptr (counted_ptr.make_word 0 p) = p)
    by now apply get_ptr_make_word_0.
  assert (Hc : counted_ptr.get_ctr (counted_ptr.make_word 0 p) = 0)
    by now apply get_ctr_make_word_0.
  assert (Hn : (p =? 0) = false) by now apply Z.eqb_neq.
  assert (Hb1 : blocks m1 !! p = Some (sptr_header_base.acquire1 h))
    by apply lookup_insert_eq.
  unfold shared_ptr.copy, shared_ptr.use_count, shared_ptr.get, shared_ptr.destroy,
    shared_ptr._release, update_block, read_block, call_block.
  fold p. rewrite Hq, Hc, Hn, Hb, Hb1. cbn [negb mbind option_bind].
  split; [reflexivity |]. split; [reflexivity |]. split; [| split; [reflexivity |]].
  - f_equal. unfold sptr_header_base.use_count, sptr_header_base.acquire1,
      atomic_paired_counter.load, atomic.load, atomic_paired_counter.fetch_add,
      atomic.fetch_add, paired_counter.word. cbn.
    change (paired_counter.make 0 1) with 1. unfold_pc. lanes.
  - change (sptr_header_base.acquire1 h)
      with (sptr_header_base.acquire (paired_counter.make 0 1) h).
    rewrite (acquire_release_keeps (paired_counter.make 0 1) h Hr (make_word64 0 1) Hne).
    subst m1. cbn [fst snd blocks calls map].
    rewrite insert_insert_eq, (insert_id _ _ _ Hb), app_nil_r. f_equal. apply memory_eta.
Qed.

Lemma copy_then_destroy_witness :
  let h := sptr_header_base.make 77 in
  let m := {| blocks := {[ 4096 := h ]}; calls := [] |} in
  let r := counted_ptr.make_word 0 4096 in
  shared_ptr.use_count (counted_ptr.make_word 0 (counted_ptr.get_ptr r))
    {| blocks := <[counted_ptr.get_ptr r := sptr_header_base.acquire1 h]> (blocks m);
       calls := calls m |}
  = Some ((sptr_header_base.use_count h + 1) mod 2 ^ 32).
Proof.
  intros h m r.
  assert (Hp : counted_ptr.get_ptr r <> 0) by (vm_compute; discriminate).
  assert (Hb : blocks m !! counted_ptr.get_ptr r = Some h) by reflexivity.
  assert (Hr : word64 (sptr_header_base.references_ h))
    by (vm_compute; split; discriminate || reflexivity).
  assert (Hne : sptr_header_base.references_ h <> paired_counter.make 0 0)
    by (vm_compute; discriminate).
  exact (proj1 (proj2 (proj2 (copy_then_destroy r m h Hp Hb Hr Hne)))).
Defined.

(** X14.  A weak handle keeps the header, not the object.  Over a fresh block
    (one shared handle, no weak handle): taking a weak handle raises
    [weak_count()] to 1; destroying the shared handle then calls only the hook
    that destroys the object; the weak handle is then expired and [lock()]
    returns the null handle under every schedule, leaving the store as it
    is; destroying the weak handle finally calls the hook that destroys the
    header. *)
Theorem weak_handle_keeps_header (p ptr : Z) (m : memory)
  (sched : list (attempt sptr_header_base.t)) :
  0 < p < 2 ^ 48 ->
  blocks m !! p = Some (sptr_header_base.make ptr) ->
  let r := counted_ptr.make_word 0 p in
  let h1 := sptr_header_base.acquire_weak (sptr_header_base.make ptr) in
  let h2 := sptr_header_base.set_references 0 h1 in
  let h3 := sptr_header_base.set_weak_references 0 h2 in
  let m1 := {| blocks := <[p := h1]> (blocks m); calls := calls m |} in
  let m2 := {| blocks := <[p := h2]> (blocks m);
               calls := calls m ++ [(p, sptr_header_base._delete_object ptr)] |} in
  let m3 := {| blocks := <[p := h3]> (blocks m);
               calls := calls m ++ [(p, sptr_header_base._delete_object ptr);
                                    (p, sptr_header_base._delete_header)] |} in
  weak_ptr.copy r m = Some (r, m1)
  /\ weak_ptr.weak_count r m1 = Some 1
  /\ shared_ptr.destroy quiet r m1 = Some m2
  /\ weak_ptr.expired r m2 = Some true
  /\ weak_ptr.lock sched r m2 = Some (shared_ptr.null, m2)
  /\ weak_ptr.destroy quiet r m2 = Some m3.
Proof.
  intros Hp Hb r h1 h2 h3 m1 m2 m3. subst r.
  assert (Hq : counted_ptr.get_ptr (counted_ptr.make_word 0 p) = p)
    by (apply get_ptr_make_word_0; lia).
  assert (Hc : counted_ptr.get_ctr (counted_ptr.make_word 0 p) = 0)
    by (apply get_ctr_make_word_0; lia).
  assert (Hn : (p =? 0) = false) by (apply Z.eqb_neq; lia).
  assert (Hb1 : blocks m1 !! p = Some h1) by apply lookup_insert_eq.
  assert (Hb2 : blocks m2 !! p = Some h2) by apply lookup_insert_eq.
  unfold weak_ptr.copy, weak_ptr.weak_count, shared_ptr.destroy, shared_ptr._release,
    weak_ptr.expired, weak_ptr.use_count, weak_ptr.lock, weak_ptr.destroy,
    update_block, read_block, call_block.
  cbv zeta. rewrite !Hq, !Hc, Hn, Hb, Hb1, Hb2. cbn [negb mbind option_bind].
  repeat split.
  - subst m1 m2. cbn [blocks calls].
    change (sptr_header_base.release quiet (paired_counter.make 0 1) h1)
      with ([sptr_header_base._delete_object ptr], h2).
    cbn [fst snd map]. now rewrite insert_insert_eq.
  - assert (Hl : sptr_header_base.weak_lock sched h2 = Some (false, h2))
      by (unfold sptr_header_base.weak_lock; destruct sched; reflexivity).
    rewrite Hl. cbn [negb mbind option_bind]. subst m2. cbn [blocks calls].
    now rewrite insert_insert_eq.
  - subst m2 m3. cbn [blocks calls].
    change (sptr_header_base.release_weak quiet (paired_counter.make 0 1) h2)
      with ([sptr_header_base._delete_header], h3).
    cbn [fst snd map]. now rewrite insert_insert_eq, <- app_assoc.
Qed.

Lemma weak_handle_keeps_header_witness :
  let m := {| blocks := {[ 4096 := sptr_header_base.make 77 ]}; calls := [] |} in
  0 < 4096 < 2 ^ 48
  /\ blocks m !! 4096 = Some (sptr_header_base.make 77)
  /\ weak_ptr.weak_count (counted_ptr.make_word 0 4096)
       {| blocks := <[4096 := sptr_header_base.acquire_weak (sptr_header_base.make 77)]>
                      (blocks m);
          calls := calls m |} = Some 1.
Proof.
  intros m.
  assert (Hp : 0 < 4096 < 2 ^ 48) by (vm_compute; split; reflexivity).
  assert (Hb : blocks m !! 4096 = Some (sptr_header_base.make 77)) by reflexivity.
  split; [exact Hp | split; [exact Hb |]].
  exact (proj1 (proj2 (weak_handle_keeps_header 4096 77 m [] Hp Hb))).
Defined.

(** ** Bit operations on the counter lane of the atomic counted pointer *)





Section bit_operation.

(** One of [&], [|], [^]: a bitwise operation that maps two clear bits to a
    clear bit. *)
Variable op : Z -> Z -> Z.
Variable f : bool -> bool -> bool.
Hypothesis op_spec :
  forall x y k, 0 <= k -> Z.testbit (op x y) k = f (Z.testbit x k) (Z.testbit y k).
Hypothesis f_clear : f false false = false.
Hypothesis op_shiftr : forall a b n, Z.shiftr (op a b) n = op (Z.shiftr a n) (Z.shiftr b n).





End bit_operation.





(** ** The single-lane compare-exchange with a whole pair as [expected] *)

(** X16.  The weak single-lane compare-exchange overloads that take
    [paired_counter& expected] succeed only when the counter equals
    [expected]; they then set the named lane to [desired] and keep the other
    lane.  When they fail the counter is unchanged and [expected] receives the
    whole word that was read.  Without a spurious failure they succeed
    whenever the counter equals [expected]. *)
Theorem pair_cas_replaces_one_lane (spur : bool) (expected desired counter_ : Z) :
  let r1 := atomic_paired_counter.compare_exchange_weak_c1_pair spur expected desired counter_ in
  let r2 := atomic_paired_counter.compare_exchange_weak_c2_pair spur expected desired counter_ in
  (fst (fst r1) = true ->
   counter_ = expected
   /\ paired_counter.get_cnt1 (snd r1) = i32 desired
   /\ paired_counter.get_cnt2 (snd r1) = paired_counter.get_cnt2 counter_
   /\ snd (fst r1) = expected)
  /\ (fst (fst r1) = false -> snd r1 = counter_ /\ snd (fst r1) = counter_)
  /\ (fst (fst r2) = true ->
      counter_ = expected
      /\ paired_counter.get_cnt2 (snd r2) = u32 desired
      /\ paired_counter.get_cnt1 (snd r2) = paired_counter.get_cnt1 counter_
      /\ snd (fst r2) = expected)
  /\ (fst (fst r2) = false -> snd r2 = counter_ /\ snd (fst r2) = counter_)
  /\ (spur = false -> counter_ = expected ->
      fst (fst r1) = true /\ fst (fst r2) = true).
Proof.
  cbv zeta.
  unfold atomic_paired_counter.compare_exchange_weak_c1_pair,
    atomic_paired_counter.compare_exchange_weak_c2_pair,
    atomic_paired_counter.compare_exchange_weak, atomic.compare_exchange_weak,
    atomic.compare_exchange_strong, paired_counter.word.
  destruct spur; cbn [fst snd].
  - repeat split; intros; try discriminate; try reflexivity.
  - destruct (Z.eqb_spec counter_ expected) as [-> | Hne]; cbn [fst snd].
    + repeat split; intros; try discriminate; try reflexivity.
      * apply get_cnt1_make.
      * rewrite get_cnt2_make. unfold_pc. lanes.
      * apply get_cnt2_make.
      * rewrite get_cnt1_make. apply i32_id, get_cnt1_range.
    + repeat split; intros; try discriminate; try reflexivity; contradiction.
Qed.

(** X17.  One turn of [compare_exchange_strong_c1( paired_counter& expected,
    int32_t desired )]: it returns true when the counter equals [expected],
    and false, with [expected] set to the word read, when [c1] differs.  When
    [c1] matches and only [c2] differs it neither returns nor changes
    [expected] or the counter, so as long as no other thread writes the
    counter the loop never ends. *)
Theorem strong_pair_cas_spins (expected desired counter_ : Z) (n : nat) :
  (counter_ = expected ->
   atomic_paired_counter.strong_c1_pair_turn quiet expected desired counter_
   = inl (true, expected,
          paired_counter.make desired (paired_counter.get_cnt2 expected)))
  /\ (paired_counter.get_cnt1 counter_ <> paired_counter.get_cnt1 expected ->
      atomic_paired_counter.strong_c1_pair_turn quiet expected desired counter_
      = inl (false, counter_, counter_))
  /\ (paired_counter.get_cnt1 counter_ = paired_counter.get_cnt1 expected ->
      counter_ <> expected ->
      atomic_paired_counter.strong_c1_pair_turn quiet expected desired counter_
      = inr (expected, counter_)
      /\ atomic_paired_counter.compare_exchange_strong_c1_pair
           (repeat quiet n) expected desired counter_ = None).
Proof.
  unfold atomic_paired_counter.strong_c1_pair_turn,
    atomic_paired_counter.compare_exchange_strong, atomic.compare_exchange_strong,
    paired_counter.word, quiet.
  split; [| split].
  - intros ->. now rewrite Z.eqb_refl.
  - intros Hne.
    assert (E : (counter_ =? expected) = false)
      by (apply Z.eqb_neq; intros ->; contradiction).
    rewrite E. now rewrite (proj2 (Z.eqb_neq _ _) Hne).
  - intros Heq Hne.
    assert (Hturn : atomic_paired_counter.strong_c1_pair_turn (fun a => a) expected desired
                      counter_ = inr (expected, counter_)).
    { unfold atomic_paired_counter.strong_c1_pair_turn,
        atomic_paired_counter.compare_exchange_strong, atomic.compare_exchange_strong,
        paired_counter.word.
      rewrite (proj2 (Z.eqb_neq _ _) Hne), (proj2 (Z.eqb_eq _ _) Heq). reflexivity. }
    split.
    + rewrite (proj2 (Z.eqb_neq _ _) Hne), (proj2 (Z.eqb_eq _ _) Heq). reflexivity.
    + induction n as [| n IH]; [reflexivity |].
      cbn [repeat atomic_paired_counter.compare_exchange_strong_c1_pair].
      rewrite Hturn. exact IH.
Qed.

Lemma strong_pair_cas_spins_witness :
  atomic_paired_counter.compare_exchange_strong_c1_pair
    (repeat quiet 5) (paired_counter.make 5 7) 6 (paired_counter.make 5 8) = None.
Proof.
  refine (proj2 (proj2 (proj2
    (strong_pair_cas_spins (paired_counter.make 5 7) 6 (paired_counter.make 5 8) 5)) _ _)).
  - reflexivity.
  - vm_compute. discriminate.
Defined.

Lemma release_weak_hooks_witness :
  let h := sptr_header_base.acquire_weak
             (sptr_header_base.set_references 0 (sptr_header_base.make 77)) in
  In sptr_header_base._delete_header
    (fst (sptr_header_base.release_weak quiet (paired_counter.make 0 1) h)).
Proof.
  intros h.
  refine (proj2 (proj1 (proj2 (release_weak_hooks quiet (paired_counter.make 0 1) h))) _).
  split; reflexivity.
Defined.

Lemma pair_cas_replaces_one_lane_witness :
  paired_counter.get_cnt1
    (snd (atomic_paired_counter.compare_exchange_weak_c1_pair false
            (paired_counter.make 5 7) 6 (paired_counter.make 5 7))) = i32 6.
Proof.
  refine (proj1 (proj2 (proj1
    (pair_cas_replaces_one_lane false (paired_counter.make 5 7) 6 (paired_counter.make 5 7))
    _))).
  reflexivity.
Defined.

(** ** The cell: leaving *)

Lemma world_eta (w : world) : {| cptr_hdr_ := cptr_hdr_ w; mem := mem w |} = w.
Proof. now destruct w. Qed.

Lemma leave_target cur :
  word64 cur ->
  counted_ptr.make_word (i16 (counted_ptr.get_ctr (counted_ptr.incr_ctr cur) - 1))
    (counted_ptr.get_ptr (counted_ptr.incr_ctr cur)) = cur.
Proof.
  intros Hc. rewrite get_ptr_incr_ctr, get_ctr_incr_ctr.
  rewrite make_word_alt by apply get_ptr_range.
  rewrite get_ctr_alt, get_ptr_alt. lanes.
Qed.

Lemma leave_undisturbed env spurs cur (w : world) :
  cptr_hdr_ w = cur ->
  atomic_shared_ptr._leave env (map (Attempt quiet) spurs ++ [Attempt quiet false]) cur w
  = Some (set_cell
            (counted_ptr.make_word (i16 (counted_ptr.get_ctr cur - 1))
               (counted_ptr.get_ptr cur)) w).
Proof.
  intros Hc. induction spurs as [| [] spurs IH];
    cbn [map app atomic_shared_ptr._leave before spurious];
    unfold atomic_counted_ptr.compare_exchange_weak, atomic.compare_exchange_weak,
      atomic.compare_exchange_strong, quiet.
  - now rewrite Hc, Z.eqb_refl.
  - rewrite Hc.
    rewrite (proj2 (make_word_lanes (i16 (counted_ptr.get_ctr cur - 1)) _
                      (get_ptr_range cur))), Z.eqb_refl.
    cbn [negb].
    replace (set_cell cur w) with w by (rewrite <- Hc; destruct w; reflexivity).
    exact IH.
  - now rewrite Hc, Z.eqb_refl.
Qed.

(** X18.  [_enter] followed by [_leave] with the counted pointer it returned
    puts the cell back: when [_enter] does not normalise and no other thread
    touches the cell, the world after [_leave] is the world before [_enter],
    however many of the weak compare-exchange attempts fail spuriously. *)
Theorem enter_leave_round_trip (e1 e2 : world -> world)
  (env : sptr_header_base.t -> sptr_header_base.t) (spurs : list bool) (w : world) :
  word64 (cptr_hdr_ w) ->
  counted_ptr.get_ptr (cptr_hdr_ w) = 0
  \/ counted_ptr.get_ctr (counted_ptr.incr_ctr (cptr_hdr_ w)) < 2 ^ 14 ->
  exists cur w1,
    atomic_shared_ptr._enter e1 e2 w = Some (cur, w1)
    /\ counted_ptr.get_ctr (cptr_hdr_ w1) = i16 (counted_ptr.get_ctr (cptr_hdr_ w) + 1)
    /\ atomic_shared_ptr._leave env (map (Attempt quiet) spurs ++ [Attempt quiet false])
         cur w1 = Some w.
Proof.
  intros Hw Hplain.
  exists (counted_ptr.incr_ctr (cptr_hdr_ w)),
         (set_cell (snd (atomic_counted_ptr.fetch_add 1 (cptr_hdr_ w))) w).
  split; [now apply enter_plain |].
  split; [apply (fetch_add_lanes 1 (cptr_hdr_ w)) |].
  rewrite leave_undisturbed by (cbn; symmetry; now apply incr_ctr_is_cell).
  rewrite leave_target by assumption. unfold set_cell. cbn. now rewrite world_eta.
Qed.

Lemma enter_leave_round_trip_witness :
  let w := {| cptr_hdr_ := counted_ptr.make_word 5 4096;
              mem := {| blocks := ∅; calls := [] |} |} in
  exists cur w1,
    atomic_shared_ptr._enter quiet quiet w = Some (cur, w1)
    /\ counted_ptr.get_ctr (cptr_hdr_ w1) = i16 (counted_ptr.get_ctr (cptr_hdr_ w) + 1)
    /\ atomic_shared_ptr._leave quiet (map (Attempt quiet) [true] ++ [Attempt quiet false])
         cur w1 = Some w.
Proof.
  intros w.
  assert (Hw : word64 (cptr_hdr_ w)) by (vm_compute; split; discriminate || reflexivity).
  assert (Hp : counted_ptr.get_ptr (cptr_hdr_ w) = 0
               \/ counted_ptr.get_ctr (counted_ptr.incr_ctr (cptr_hdr_ w)) < 2 ^ 14)
    by (right; vm_compute; reflexivity).
  exact (enter_leave_round_trip quiet quiet quiet [true] w Hw Hp).
Defined.

(** X19.  When the cell has been repointed between [_enter] and [_leave], the
    first compare-exchange attempt of [_leave] fails, spuriously or not, and
    [_leave] leaves the cell as it found it and calls [release(PC(1, 0))] on
    the block it had entered: that block's [c1] goes down by one and its [c2]
    stays. *)
Theorem leave_after_repoint (env : sptr_header_base.t -> sptr_header_base.t)
  (a : attempt world) (rest : list (attempt world)) (cur : Z) (w : world)
  (hb : sptr_header_base.t) :
  let w1 := before a w in
  let p := counted_ptr.get_ptr cur in
  counted_ptr.get_ptr (cptr_hdr_ w1) <> p ->
  p <> 0 ->
  blocks (mem w1) !! p = Some hb ->
  let r := sptr_header_base.release env (paired_counter.make 1 0) hb in
  atomic_shared_ptr._leave env (a :: rest) cur w
  = Some {| cptr_hdr_ := cptr_hdr_ w1;
            mem := {| blocks := <[p := snd r]> (blocks (mem w1));
                      calls := calls (mem w1) ++ map (pair p) (fst r) |} |}
  /\ (word64 (sptr_header_base.references_ hb) ->
      let refs' := u64 (sptr_header_base.references_ hb - paired_counter.make 1 0) in
      paired_counter.get_cnt1 refs'
      = i32 (paired_counter.get_cnt1 (sptr_header_base.references_ hb) - 1)
      /\ paired_counter.get_cnt2 refs'
         = paired_counter.get_cnt2 (sptr_header_base.references_ hb)).
Proof.
  intros w1 p Hne Hp Hb r. split.
  - cbn [atomic_shared_ptr._leave]. fold w1.
    assert (Hq : counted_ptr.get_ptr
                   (counted_ptr.make_word (i16 (counted_ptr.get_ctr cur - 1))
                      (counted_ptr.get_ptr cur)) = p)
      by (apply make_word_lanes, get_ptr_range).
    assert (Hcell : (cptr_hdr_ w1 =? cur) = false)
      by (apply Z.eqb_neq; intros E; apply Hne; now rewrite E).
    unfold atomic_counted_ptr.compare_exchange_weak, atomic.compare_exchange_weak,
      atomic.compare_exchange_strong.
    rewrite Hcell.
    destruct (spurious a); cbn [negb].
    all: rewrite Hq, (proj2 (Z.eqb_neq _ _) Hne); cbn [negb].
    all: unfold atomic_shared_ptr._release, call_block.
    all: rewrite (proj2 (Z.eqb_neq _ _) Hp); cbn [negb].
    all: unfold set_cell; cbn [mem cptr_hdr_]; rewrite Hb; reflexivity.
  - intros Hr refs'. subst refs'.
    destruct (split_word _ Hr) as (hi & lo & -> & Hhi & Hlo).
    change (paired_counter.make 1 0) with (2 ^ 32). unfold_pc. lanes.
Qed.

Lemma leave_after_repoint_witness :
  let hb := sptr_header_base.hold 1 (sptr_header_base.make 77) in
  let w := {| cptr_hdr_ := counted_ptr.make_word 0 8192;
              mem := {| blocks := {[ 4096 := hb ]}; calls := [] |} |} in
  atomic_shared_ptr._leave quiet [Attempt quiet false] (counted_ptr.make_word 1 4096) w
  = Some {| cptr_hdr_ := counted_ptr.make_word 0 8192;
            mem := {| blocks :=
                        <[4096 := snd (sptr_header_base.release quiet
                                         (paired_counter.make 1 0) hb)]>
                          {[ 4096 := hb ]};
                      calls := [] ++ map (pair 4096)
                                 (fst (sptr_header_base.release quiet
                                         (paired_counter.make 1 0) hb)) |} |}.
Proof.
  intros hb w.
  refine (proj1 (leave_after_repoint quiet (Attempt quiet false) []
                   (counted_ptr.make_word 1 4096) w hb _ _ _)).
  - vm_compute. discriminate.
  - vm_compute. discriminate.
  - reflexivity.
Defined.

(** ** A cell, a loaded handle and their end *)

Lemma cell_after_enter c p :
  0 <= c -> c + 1 < 2 ^ 15 -> 0 <= p < 2 ^ 48 ->
  snd (atomic_counted_ptr.fetch_add 1 (counted_ptr.make_word c p))
  = counted_ptr.make_word (c + 1) p
  /\ counted_ptr.incr_ctr (counted_ptr.make_word c p) = counted_ptr.make_word (c + 1) p.
Proof.
  intros Hc Hc1 Hp.
  unfold atomic_counted_ptr.fetch_add, atomic.fetch_add, counted_ptr.incr_ctr.
  cbn [snd]. rewrite set_ctr_alt, get_ctr_alt, make_word_ctr_alt, !make_word_alt by assumption.
  lanes.
Qed.

Lemma release_on r count hb :
  sptr_header_base.release quiet count (sptr_header_base.set_references r hb)
  = if r =? count
    then if sptr_header_base.weak_references_ hb =? 0
         then ([sptr_header_base._delete_object (sptr_header_base.pointer_ hb);
                sptr_header_base._delete_header],
               sptr_header_base.set_references (u64 (r - count)) hb)
         else ([sptr_header_base._delete_object (sptr_header_base.pointer_ hb)],
               sptr_header_base.set_references (u64 (r - count)) hb)
    else ([], sptr_header_base.set_references (u64 (r - count)) hb).
Proof. reflexivity. Qed.

Lemma strong_sums c :
  0 <= c -> c + 1 < 2 ^ 14 ->
  u64 (paired_counter.make c 1 + paired_counter.make 1 1) = paired_counter.make (c + 1) 2
  /\ u64 (paired_counter.make (c + 1) 2 - paired_counter.make 0 1)
     = paired_counter.make (c + 1) 1
  /\ u64 (paired_counter.make (c + 1) 2 - paired_counter.make (c + 1) 1)
     = paired_counter.make 0 1
  /\ u64 (paired_counter.make (c + 1) 1 - paired_counter.make (c + 1) 1) = 0
  /\ u64 (paired_counter.make 0 1 - paired_counter.make 0 1) = 0
  /\ paired_counter.make (c + 1) 2 <> paired_counter.make 0 1
  /\ paired_counter.make (c + 1) 2 <> paired_counter.make (c + 1) 1.
Proof. intros H0 H1. unfold_pc. lanes. Qed.

(** X21.  A cell [(c, p)] with [c] credits below the normalisation threshold,
    sole owner of a block whose strong counter is [PC(c, 1)] and which has no
    weak handle.  A [load] hands out a handle and leaves the cell at
    [(c + 1, p)] and the block at [PC(c + 1, 2)].  Whether the handle or the
    cell is destroyed first, the first destruction calls no hook and the
    second one brings the strong counter to [PC(0, 0)] and calls the hook that
    destroys the object and then the hook that destroys the header, once
    each. *)
Theorem cell_and_handle_balance (c p : Z) (w : world) (hb : sptr_header_base.t) :
  0 <= c -> c + 1 < 2 ^ 14 -> 0 < p < 2 ^ 48 ->
  cptr_hdr_ w = counted_ptr.make_word c p ->
  blocks (mem w) !! p = Some hb ->
  sptr_header_base.references_ hb = paired_counter.make c 1 ->
  sptr_header_base.weak_references_ hb = 0 ->
  let strong r := sptr_header_base.set_references r hb in
  let store_of r ks := {| blocks := <[p := strong r]> (blocks (mem w));
                          calls := calls (mem w) ++ ks |} in
  let cell1 := counted_ptr.make_word (c + 1) p in
  let handle := counted_ptr.make_word 0 p in
  let both := [(p, sptr_header_base._delete_object (sptr_header_base.pointer_ hb));
               (p, sptr_header_base._delete_header)] in
  let w1 := {| cptr_hdr_ := cell1; mem := store_of (paired_counter.make (c + 1) 2) [] |} in
  atomic_shared_ptr.load quiet quiet quiet w = Some (handle, w1)
  /\ shared_ptr.destroy quiet handle (mem w1)
     = Some (store_of (paired_counter.make (c + 1) 1) [])
  /\ atomic_shared_ptr.destroy quiet
       {| cptr_hdr_ := cell1; mem := store_of (paired_counter.make (c + 1) 1) [] |}
     = Some {| cptr_hdr_ := cell1; mem := store_of 0 both |}
  /\ atomic_shared_ptr.destroy quiet w1
     = Some {| cptr_hdr_ := cell1; mem := store_of (paired_counter.make 0 1) [] |}
  /\ shared_ptr.destroy quiet handle (store_of (paired_counter.make 0 1) [])
     = Some (store_of 0 both).
Proof.
  intros Hc Hc1 Hp Hcell Hb Hrefs Hweak strong store_of cell1 handle both w1.
  subst strong store_of cell1 handle both w1. cbv beta.
  destruct (cell_after_enter c p Hc ltac:(lia) ltac:(lia)) as [Hfa Hinc].
  destruct (strong_sums c Hc Hc1) as (S1 & S2 & S3 & S4 & S5 & N1 & N2).
  assert (Hcp : counted_ptr.get_ptr (counted_ptr.make_word (c + 1) p) = p)
    by (apply make_word_lanes; lia).
  assert (Hcc : counted_ptr.get_ctr (counted_ptr.make_word (c + 1) p) = c + 1).
  { rewrite (proj1 (make_word_lanes (c + 1) p ltac:(lia))). lanes. }
  assert (Hhp : counted_ptr.get_ptr (counted_ptr.make_word 0 p) = p)
    by (apply get_ptr_make_word_0; lia).
  assert (Hhc : counted_ptr.get_ctr (counted_ptr.make_word 0 p) = 0)
    by (apply get_ctr_make_word_0; lia).
  assert (Hn : (p =? 0) = false) by (apply Z.eqb_neq; lia).
  assert (Hlook : forall x, (<[p := x]> (blocks (mem w)) : gmap Z sptr_header_base.t) !! p
                            = Some x)
    by (intros; apply lookup_insert_eq).
  assert (Hins : forall x y, <[p := y]> (<[p := x]> (blocks (mem w)))
                             = <[p := y]> (blocks (mem w)))
    by (intros; apply insert_insert_eq).
  unfold shared_ptr.destroy, shared_ptr._release, atomic_shared_ptr.destroy,
    atomic_counted_ptr.load, atomic.load, call_block.
  cbn [cptr_hdr_ mem blocks calls].
  rewrite !Hcp, !Hcc, !Hhp, !Hhc, Hn, !Hlook. cbn [negb mbind option_bind].
  rewrite !release_on, Hweak, !Z.eqb_refl, S2, S3, S4, S5.
  rewrite (proj2 (Z.eqb_neq _ _) N1), (proj2 (Z.eqb_neq _ _) N2).
  cbn [Z.eqb fst snd map]. rewrite !Hins, !app_nil_r.
  unfold set_mem. cbn [cptr_hdr_ mem].
  split; [| repeat split].
  unfold atomic_shared_ptr.load.
  rewrite enter_plain by (right; rewrite Hcell, Hinc, Hcc; lia).
  cbn [mbind option_bind]. rewrite Hcell, Hinc, Hfa, Hcp, Hn.
  unfold update_block, quiet, set_cell, set_mem. cbn [mem cptr_hdr_]. rewrite Hb.
  cbn [mbind option_bind]. unfold shared_ptr.from_header.
  do 5 f_equal.
  unfold sptr_header_base.acquire, atomic_paired_counter.fetch_add, atomic.fetch_add,
    paired_counter.word. cbn [snd]. now rewrite Hrefs, S1.
Qed.

Lemma cell_and_handle_balance_witness :
  let hb := {| sptr_header_base.references_ := paired_counter.make 3 1;
               sptr_header_base.weak_references_ := 0;
               sptr_header_base.pointer_ := 77 |} in
  let w := {| cptr_hdr_ := counted_ptr.make_word 3 4096;
              mem := {| blocks := {[ 4096 := hb ]}; calls := [] |} |} in
  atomic_shared_ptr.load quiet quiet quiet w
  = Some (counted_ptr.make_word 0 4096,
          {| cptr_hdr_ := counted_ptr.make_word (3 + 1) 4096;
             mem := {| blocks :=
                         <[4096 := sptr_header_base.set_references
                                     (paired_counter.make (3 + 1) 2) hb]> (blocks (mem w));
                       calls := calls (mem w) ++ [] |} |}).
Proof.
  intros hb w.
  refine (proj1 (cell_and_handle_balance 3 4096 w hb _ _ _ _ _ _ _)).
  - discriminate.
  - reflexivity.
  - split; reflexivity.
  - reflexivity.
  - reflexivity.
  - reflexivity.
  - reflexivity.
Defined.

(** ** The cell: [compare_exchange_strong] with an rvalue [desired] *)

Lemma get_ptr_decr_ctr w : counted_ptr.get_ptr (counted_ptr.decr_ctr w) = counted_ptr.get_ptr w.
Proof. unfold counted_ptr.decr_ctr. apply get_ptr_set_ctr. Qed.

Section strong_move.

Variables e1 e2 : world -> world.
Variable env : sptr_header_base.t -> sptr_header_base.t.

Lemma strong_move_start_sound expected_ptr expected desired w r :
  counted_ptr.get_ptr expected = expected_ptr ->
  atomic_shared_ptr.strong_move_start e1 e2 env expected_ptr expected desired w = Some r ->
  match r with
  | inl (ok, expected', desired', w') =>
      ok = false /\ counted_ptr.get_ptr expected' <> expected_ptr /\ desired' = desired
  | inr (exp_ctrl_ptr, expected', w1) =>
      counted_ptr.get_ptr exp_ctrl_ptr = expected_ptr
      /\ counted_ptr.get_ptr expected' = expected_ptr
  end.
Proof.
  intros He. unfold atomic_shared_ptr.strong_move_start.
  destruct (atomic_shared_ptr._enter e1 e2 w) as [[exp w1] |]; cbn; [| discriminate].
  destruct (Z.eqb_spec expected_ptr (counted_ptr.get_ptr exp)) as [E | E]; cbn.
  - intros [= <-]. split; [now symmetry |]. now rewrite get_ptr_decr_ctr.
  - destruct (shared_ptr.destroy env expected (mem w1)) as [m2 |]; cbn; [| discriminate].
    destruct (if negb (counted_ptr.get_ptr exp =? 0)
              then update_block (counted_ptr.get_ptr exp)
                     (sptr_header_base.acquire (paired_counter.make 1 1)) m2
              else Some m2) as [m3 |]; cbn; [| discriminate].
    intros [= <-]. repeat split.
    rewrite get_ptr_from_header by apply get_ptr_range. congruence.
Qed.

Lemma strong_move_loop_sound sched :
  forall expected_ptr exp_ctrl_ptr expected desired w ok expected' desired' w',
    counted_ptr.get_ptr expected = expected_ptr ->
    counted_ptr.get_ptr exp_ctrl_ptr = expected_ptr ->
    atomic_shared_ptr.strong_move_loop e1 e2 env sched expected_ptr exp_ctrl_ptr
      expected desired w = Some (ok, expected', desired', w') ->
    (ok = true ->
     cptr_hdr_ w' = desired
     /\ counted_ptr.get_ptr desired' = expected_ptr
     /\ counted_ptr.get_ptr expected' = expected_ptr)
    /\ (ok = false ->
        counted_ptr.get_ptr expected' <> expected_ptr /\ desired' = desired).
Proof.
  induction sched as [| e sched IH]; intros expected_ptr exp expected desired w
    ok expected' desired' w' He Hx; cbn [atomic_shared_ptr.strong_move_loop];
    [discriminate |].
  unfold atomic_counted_ptr.compare_exchange_strong, atomic.compare_exchange_strong.
  destruct (Z.eqb_spec (cptr_hdr_ (e w)) exp) as [Ec | Ec].
  - intros [= <- <- <- <-]. split; [| discriminate]. intros _. auto.
  - cbn [negb].
    destruct (Z.eqb_spec expected_ptr (counted_ptr.get_ptr (cptr_hdr_ (e w)))) as [E | E];
      cbn [negb].
    + apply IH; auto.
    + destruct (atomic_shared_ptr.strong_move_start e1 e2 env expected_ptr expected desired
                  (set_cell (cptr_hdr_ (e w)) (e w))) as [r |] eqn:Es; cbn; [| discriminate].
      pose proof (strong_move_start_sound _ _ _ _ _ He Es) as Hs.
      destruct r as [[[[ok1 ex1] de1] w1] | [[exp1 ex1] w1]].
      * intros [= <- <- <- <-]. destruct Hs as (-> & Hne & ->).
        split; [discriminate | auto].
      * destruct Hs as [H1 H2]. apply IH; auto.
Qed.

(** X22.  Whatever the other threads do and however long the loop runs, when
    [compare_exchange_strong( expected, std::move( desired ) )] returns true
    the cell holds the word [desired] had, and [desired] and [expected] both
    point to the block [expected] pointed to; when it returns false, [desired]
    is untouched and [expected] points to another block than before: it never
    fails while it sees the expected pointer. *)
Theorem strong_cas_is_sound (sched : list (world -> world)) (expected desired : Z)
  (w : world) (ok : bool) (expected' desired' : Z) (w' : world) :
  atomic_shared_ptr.compare_exchange_strong_move e1 e2 env sched expected desired w
  = Some (ok, expected', desired', w') ->
  (ok = true ->
   cptr_hdr_ w' = desired
   /\ counted_ptr.get_ptr desired' = counted_ptr.get_ptr expected
   /\ counted_ptr.get_ptr expected' = counted_ptr.get_ptr expected)
  /\ (ok = false ->
      counted_ptr.get_ptr expected' <> counted_ptr.get_ptr expected
      /\ desired' = desired).
Proof.
  unfold atomic_shared_ptr.compare_exchange_strong_move.
  destruct (atomic_shared_ptr.strong_move_start e1 e2 env (counted_ptr.get_ptr expected)
              expected desired w) as [r |] eqn:Es; cbn; [| discriminate].
  pose proof (strong_move_start_sound _ _ _ _ _ eq_refl Es) as Hs.
  destruct r as [[[[ok1 ex1] de1] w1] | [[exp1 ex1] w1]].
  - intros [= <- <- <- <-]. destruct Hs as (-> & Hne & ->).
    split; [discriminate | auto].
  - destruct Hs as [H1 H2]. intros Hl.
    destruct (strong_move_loop_sound _ _ _ _ _ _ _ _ _ _ H2 H1 Hl) as [Ht Hf].
    split; [exact Ht | exact Hf].
Qed.

(** X23.  Undisturbed, with no normalisation in [_enter]: when the cell points
    to the block [expected] points to, [compare_exchange_strong( expected,
    std::move( desired ) )] returns true, the cell takes [desired]'s word,
    [desired] takes the cell's word with its counter raised by the [_enter],
    [expected]'s counter is lowered by one and no block is touched.  When the
    cell is null and [expected] is not, it returns false, [expected] gives up
    its block and becomes the null handle. *)
Theorem strong_cas_sequential (rest : list (world -> world)) (expected desired : Z)
  (w : world) :
  word64 (cptr_hdr_ w) ->
  counted_ptr.get_ptr (cptr_hdr_ w) = 0
  \/ counted_ptr.get_ctr (counted_ptr.incr_ctr (cptr_hdr_ w)) < 2 ^ 14 ->
  let cell1 := snd (atomic_counted_ptr.fetch_add 1 (cptr_hdr_ w)) in
  (counted_ptr.get_ptr (cptr_hdr_ w) = counted_ptr.get_ptr expected ->
   atomic_shared_ptr.compare_exchange_strong_move e1 e2 env (quiet :: rest)
     expected desired w
   = Some (true, counted_ptr.decr_ctr expected, cell1, set_cell desired w)
   /\ counted_ptr.get_ctr cell1 = i16 (counted_ptr.get_ctr (cptr_hdr_ w) + 1)
   /\ counted_ptr.get_ptr cell1 = counted_ptr.get_ptr expected)
  /\ (counted_ptr.get_ptr (cptr_hdr_ w) = 0 ->
      counted_ptr.get_ptr expected <> 0 ->
      atomic_shared_ptr.compare_exchange_strong_move e1 e2 env rest expected desired w
      = (m2 ← shared_ptr.destroy env expected (mem w);
         Some (false, shared_ptr.null, desired, set_mem m2 (set_cell cell1 w)))).
Proof.
  intros Hw Hplain cell1.
  pose proof (enter_plain e1 e2 w Hplain) as He.
  pose proof (incr_ctr_is_cell _ Hw) as Hi. fold cell1 in He, Hi.
  pose proof (fetch_add_lanes 1 (cptr_hdr_ w)) as (_ & Hc & Hq). fold cell1 in Hc, Hq.
  split.
  - intros Hp. split; [| split; [exact Hc | congruence]].
    unfold atomic_shared_ptr.compare_exchange_strong_move,
      atomic_shared_ptr.strong_move_start.
    cbv zeta. rewrite He. cbn [mbind option_bind]. rewrite Hi, Hq, Hp, Z.eqb_refl.
    cbn [negb mbind option_bind atomic_shared_ptr.strong_move_loop].
    unfold atomic_counted_ptr.compare_exchange_strong, atomic.compare_exchange_strong,
      quiet, set_cell.
    cbn [cptr_hdr_ mem]. now rewrite Z.eqb_refl.
  - intros Hp Hne.
    unfold atomic_shared_ptr.compare_exchange_strong_move,
      atomic_shared_ptr.strong_move_start.
    cbv zeta. rewrite He. cbn [mbind option_bind]. rewrite Hi, Hq, Hp.
    rewrite (proj2 (Z.eqb_neq _ _) Hne). cbn [negb Z.eqb].
    change (mem (set_cell cell1 w)) with (mem w).
    destruct (shared_ptr.destroy env expected (mem w)) as [m2 |]; reflexivity.
Qed.

End strong_move.

Lemma strong_cas_is_sound_witness :
  let w := {| cptr_hdr_ := counted_ptr.make_word 2 4096;
              mem := {| blocks := ∅; calls := [] |} |} in
  cptr_hdr_ (set_cell (counted_ptr.make_word 0 8192) w) = counted_ptr.make_word 0 8192.
Proof.
  intros w.
  refine (proj1 (proj1 (strong_cas_is_sound quiet quiet quiet [quiet]
                          (counted_ptr.make_word 0 4096) (counted_ptr.make_word 0 8192) w
                          true _ _ _ _) eq_refl)).
  vm_compute. reflexivity.
Defined.

Lemma strong_cas_sequential_witness :
  let w := {| cptr_hdr_ := counted_ptr.make_word 2 4096;
              mem := {| blocks := ∅; calls := [] |} |} in
  atomic_shared_ptr.compare_exchange_strong_move quiet quiet quiet [quiet]
    (counted_ptr.make_word 0 4096) (counted_ptr.make_word 0 8192) w
  = Some (true, counted_ptr.decr_ctr (counted_ptr.make_word 0 4096),
          snd (atomic_counted_ptr.fetch_add 1 (cptr_hdr_ w)),
          set_cell (counted_ptr.make_word 0 8192) w).
Proof.
  intros w.
  refine (proj1 (proj1 (strong_cas_sequential quiet quiet quiet []
                          (counted_ptr.make_word 0 4096) (counted_ptr.make_word 0 8192) w
                          _ _) _)).
  - vm_compute. split; discriminate || reflexivity.
  - right. vm_compute. reflexivity.
  - vm_compute. reflexivity.
Defined.

(** ** Storing into a cell *)

(** An undisturbed [_enter] that normalises: the cell ends at [(0, p)] and the
    block, on which [unhold] is called with 0, stays as it was. *)
Lemma enter_normalize_quiet (w : world) (hb : sptr_header_base.t) :
  let old := cptr_hdr_ w in
  let p := counted_ptr.get_ptr old in
  2 ^ 14 <= counted_ptr.get_ctr (counted_ptr.incr_ctr old) ->
  p <> 0 ->
  word64 old ->
  blocks (mem w) !! p = Some hb ->
  word64 (sptr_header_base.references_ hb) ->
  atomic_shared_ptr._enter quiet quiet w
  = Some (counted_ptr.set_ctr 0 (counted_ptr.incr_ctr old),
          set_cell (counted_ptr.make_word 0 p) w).
Proof.
  intros old p Hc Hp Hw Hb Hr. subst old p.
  unfold atomic_shared_ptr._enter, atomic_shared_ptr._try_leave,
    atomic_counted_ptr.compare_exchange_strong, atomic.compare_exchange_strong, quiet.
  change (atomic_counted_ptr.fetch_add 1 (cptr_hdr_ w))
    with (cptr_hdr_ w, snd (atomic_counted_ptr.fetch_add 1 (cptr_hdr_ w))).
  cbv beta iota zeta.
  change (Z.shiftl 1 14) with (2 ^ 14).
  rewrite (proj2 (Z.leb_le _ _) Hc).
  cbn [cptr_hdr_ set_cell mem].
  rewrite <- (incr_ctr_is_cell _ Hw), Z.eqb_refl, Z.sub_diag.
  rewrite !get_ptr_set_ctr, !get_ctr_set_ctr, !get_ptr_incr_ctr.
  rewrite (proj2 (Z.eqb_neq _ _) Hp). cbn [andb negb].
  change (i16 0) with 0.
  unfold update_block. rewrite Hb. cbn [mbind option_bind].
  rewrite (unhold_zero hb Hr), (insert_id _ _ _ Hb).
  unfold set_mem, set_cell. cbn [cptr_hdr_ mem]. now rewrite memory_eta.
Qed.

(** X20.  What is stored is what is loaded.  [store( std::move( desired ) )]
    puts [desired]'s word into the cell, hands the cell's previous word back
    to [desired] and touches no block, whatever [desired] is.  An undisturbed
    [load] right after it returns the null handle when [desired] was null, and
    otherwise the handle [(0, q)] of [desired]'s block [q], to which it adds
    [PC(1, 1)].  The cell is left at [desired] with its counter raised by one
    when that counter stays below 2^14; when it reaches 2^14, [_enter]
    normalises and the cell is left at [(0, q)]. *)
Theorem store_then_load (desired : Z) (w : world) :
  let q := counted_ptr.get_ptr desired in
  let c := counted_ptr.get_ctr (counted_ptr.incr_ctr desired) in
  let w1 := snd (atomic_shared_ptr.store desired w) in
  let entered := snd (atomic_counted_ptr.fetch_add 1 desired) in
  let acquired hq :=
    {| blocks := <[q := sptr_header_base.acquire (paired_counter.make 1 1) hq]>
                   (blocks (mem w));
       calls := calls (mem w) |} in
  (fst (atomic_shared_ptr.store desired w) = cptr_hdr_ w
   /\ cptr_hdr_ w1 = desired
   /\ mem w1 = mem w)
  /\ (q = 0 ->
      atomic_shared_ptr.load quiet quiet quiet w1
      = Some (shared_ptr.null, {| cptr_hdr_ := entered; mem := mem w |}))
  /\ (q <> 0 -> c < 2 ^ 14 ->
      forall hq, blocks (mem w) !! q = Some hq ->
      atomic_shared_ptr.load quiet quiet quiet w1
      = Some (counted_ptr.make_word 0 q,
              {| cptr_hdr_ := entered; mem := acquired hq |}))
  /\ (q <> 0 -> 2 ^ 14 <= c ->
      word64 desired ->
      forall hq, blocks (mem w) !! q = Some hq ->
      word64 (sptr_header_base.references_ hq) ->
      atomic_shared_ptr.load quiet quiet quiet w1
      = Some (counted_ptr.make_word 0 q,
              {| cptr_hdr_ := counted_ptr.make_word 0 q; mem := acquired hq |})).
Proof.
  intros q c w1 entered acquired. subst q c w1 entered acquired.
  change (atomic_shared_ptr.store desired w) with (cptr_hdr_ w, set_cell desired w).
  cbn [fst snd].
  split; [repeat split |].
  split; [| split].
  - intros Hq.
    pose proof (enter_plain quiet quiet (set_cell desired w) (or_introl Hq)) as He.
    unfold atomic_shared_ptr.load. rewrite He. cbn [mbind option_bind].
    cbn [cptr_hdr_ set_cell]. rewrite get_ptr_incr_ctr, Hq. reflexivity.
  - intros Hq Hc hq Hb.
    pose proof (enter_plain quiet quiet (set_cell desired w) (or_intror Hc)) as He.
    unfold atomic_shared_ptr.load. rewrite He. cbn [mbind option_bind].
    cbn [cptr_hdr_ set_cell]. rewrite get_ptr_incr_ctr, (proj2 (Z.eqb_neq _ _) Hq).
    unfold update_block, quiet. cbn [mem set_cell]. rewrite Hb. reflexivity.
  - intros Hq Hc Hw hq Hb Hr.
    pose proof (enter_normalize_quiet (set_cell desired w) hq Hc Hq Hw Hb Hr) as He.
    unfold atomic_shared_ptr.load. rewrite He. cbn [mbind option_bind].
    cbn [cptr_hdr_ set_cell]. rewrite get_ptr_set_ctr, get_ptr_incr_ctr.
    rewrite (proj2 (Z.eqb_neq _ _) Hq).
    unfold update_block, quiet. cbn [mem set_cell]. rewrite Hb. reflexivity.
Qed.

Lemma store_then_load_witness :
  let hq := sptr_header_base.make 77 in
  let w := {| cptr_hdr_ := counted_ptr.make_word 0 0;
              mem := {| blocks := {[ 4096 := hq ]}; calls := [] |} |} in
  let acquired :=
    {| blocks := <[4096 := sptr_header_base.acquire (paired_counter.make 1 1) hq]>
                   {[ 4096 := hq ]};
       calls := [] |} in
  atomic_shared_ptr.load quiet quiet quiet
    (snd (atomic_shared_ptr.store (counted_ptr.make_word 0 0) w))
  = Some (shared_ptr.null, {| cptr_hdr_ := counted_ptr.make_word 1 0; mem := mem w |})
  /\ atomic_shared_ptr.load quiet quiet quiet
       (snd (atomic_shared_ptr.store (counted_ptr.make_word 2 4096) w))
     = Some (counted_ptr.make_word 0 4096,
             {| cptr_hdr_ := counted_ptr.make_word 3 4096; mem := acquired |})
  /\ atomic_shared_ptr.load quiet quiet quiet
       (snd (atomic_shared_ptr.store (counted_ptr.make_word 16383 4096) w))
     = Some (counted_ptr.make_word 0 4096,
             {| cptr_hdr_ := counted_ptr.make_word 0 4096; mem := acquired |}).
Proof.
  intros hq w acquired.
  split; [| split].
  - refine (proj1 (proj2 (store_then_load (counted_ptr.make_word 0 0) w)) _).
    vm_compute. reflexivity.
  - refine (proj1 (proj2 (proj2 (store_then_load (counted_ptr.make_word 2 4096) w)))
              _ _ hq _).
    + vm_compute. discriminate.
    + vm_compute. reflexivity.
    + vm_compute. reflexivity.
  - refine (proj2 (proj2 (proj2 (store_then_load (counted_ptr.make_word 16383 4096) w)))
              _ _ _ hq _ _).
    + vm_compute. discriminate.
    + vm_compute. discriminate.
    + vm_compute. split; [discriminate | reflexivity].
    + vm_compute. reflexivity.
    + vm_compute. split; [discriminate | reflexivity].
Defined.

(** ** Assignment of handles *)

Lemma make_word_ptr_is_handle p :
  0 <= p < 2 ^ 48 -> counted_ptr.make_word_ptr p = counted_ptr.make_word 0 p.
Proof.
  intros Hp. rewrite make_word_alt by assumption. unfold counted_ptr.make_word_ptr. lanes.
Qed.

(** X24.  Copy assignment of shared handles: when both sides point to the same
    block, nothing changes, not even the left side's counter; otherwise it is
    the destruction of the left side followed by a copy of the right side. *)
Theorem shared_assign_is_destroy_then_copy
  (env : sptr_header_base.t -> sptr_header_base.t) (cp_header_ r : Z) (m : memory) :
  (counted_ptr.get_ptr r = counted_ptr.get_ptr cp_header_ ->
   shared_ptr.assign env cp_header_ r m = Some (cp_header_, m))
  /\ (counted_ptr.get_ptr r <> counted_ptr.get_ptr cp_header_ ->
      shared_ptr.assign env cp_header_ r m
      = (m1 ← shared_ptr.destroy env cp_header_ m; shared_ptr.copy r m1)).
Proof.
  unfold shared_ptr.assign, shared_ptr.destroy, shared_ptr._release, shared_ptr.copy.
  split.
  - intros E. now rewrite (proj2 (Z.eqb_eq _ _) E).
  - intros E. rewrite (proj2 (Z.eqb_neq _ _) E).
    rewrite make_word_ptr_is_handle by apply get_ptr_range.
    reflexivity.
Qed.

Lemma shared_assign_is_destroy_then_copy_witness :
  let m := {| blocks := {[ 4096 := sptr_header_base.make 77 ]}; calls := [] |} in
  shared_ptr.assign quiet (counted_ptr.make_word 3 4096) (counted_ptr.make_word 0 4096) m
  = Some (counted_ptr.make_word 3 4096, m).
Proof.
  intros m.
  refine (proj1 (shared_assign_is_destroy_then_copy quiet _ _ m) _).
  vm_compute. reflexivity.
Defined.

(** X25.  Copy assignment of weak handles has no check for self-assignment.
    For a weak handle that is the last reference to a block whose object is
    gone (strong counter [PC(0, 0)], weak counter [PC(0, 1)]), [w = w] calls
    the hook that destroys the header and then calls [acquire_weak] through
    the same pointer: the handle still points to the block whose header it
    has had destroyed. *)
Theorem weak_self_assign_deletes_header (p : Z) (m : memory) (hb : sptr_header_base.t) :
  0 < p < 2 ^ 48 ->
  blocks m !! p = Some hb ->
  sptr_header_base.references_ hb = paired_counter.make 0 0 ->
  sptr_header_base.weak_references_ hb = paired_counter.make 0 1 ->
  let wk := counted_ptr.make_word 0 p in
  weak_ptr.assign quiet wk wk m
  = Some (wk, {| blocks := <[p := hb]> (blocks m);
                 calls := calls m ++ [(p, sptr_header_base._delete_header)] |})
  /\ counted_ptr.get_ptr wk = p.
Proof.
  intros Hp Hb Hr Hw wk. subst wk.
  assert (Hq : counted_ptr.get_ptr (counted_ptr.make_word 0 p) = p)
    by (apply get_ptr_make_word_0; lia).
  assert (Hc : counted_ptr.get_ctr (counted_ptr.make_word 0 p) = 0)
    by (apply get_ctr_make_word_0; lia).
  split; [| exact Hq].
  unfold weak_ptr.assign, call_block, update_block.
  rewrite !Hq, Hc, (proj2 (Z.eqb_neq p 0)) by lia. cbn [negb].
  rewrite Hb. cbn [mbind option_bind blocks calls].
  assert (Hrel : sptr_header_base.release_weak quiet (paired_counter.make 0 1) hb
                 = ([sptr_header_base._delete_header],
                    sptr_header_base.set_weak_references 0 hb)).
  { unfold sptr_header_base.release_weak, atomic_paired_counter.fetch_sub,
      atomic.fetch_sub, atomic_paired_counter.load, atomic.load, paired_counter.eqb,
      paired_counter.word, quiet.
    rewrite Hw. cbn [sptr_header_base.references_ sptr_header_base.set_weak_references].
    rewrite Hr. reflexivity. }
  rewrite Hrel. cbn [fst snd map]. rewrite lookup_insert_eq.
  cbn [mbind option_bind]. rewrite insert_insert_eq.
  do 4 f_equal.
  destruct hb as [r wr ptr]. cbn in Hr, Hw. subst. reflexivity.
Qed.

Lemma weak_self_assign_deletes_header_witness :
  let hb := {| sptr_header_base.references_ := paired_counter.make 0 0;
               sptr_header_base.weak_references_ := paired_counter.make 0 1;
               sptr_header_base.pointer_ := 77 |} in
  let m := {| blocks := {[ 4096 := hb ]}; calls := [] |} in
  weak_ptr.assign quiet (counted_ptr.make_word 0 4096) (counted_ptr.make_word 0 4096) m
  = Some (counted_ptr.make_word 0 4096,
          {| blocks := <[4096 := hb]> (blocks m);
             calls := calls m ++ [(4096, sptr_header_base._delete_header)] |}).
Proof.
  intros hb m.
  refine (proj1 (weak_self_assign_deletes_header 4096 m hb _ _ _ _)).
  - split; reflexivity.
  - reflexivity.
  - reflexivity.
  - reflexivity.
Defined.

(** X26.  [store( const shared_ptr<T>& desired )] into a cell that holds
    another block: [desired]'s block gains one strong reference for the cell,
    the cell becomes [(0, q)], and the block the cell held is released with
    [PC(ctr, 1)], [ctr] being the counter the cell had collected.  Into an
    empty cell it only takes the reference and sets the cell. *)
Theorem store_copy_hands_over
  (env : sptr_header_base.t -> sptr_header_base.t) (desired : Z) (w : world)
  (hq : sptr_header_base.t) :
  let q := counted_ptr.get_ptr desired in
  let p := counted_ptr.get_ptr (cptr_hdr_ w) in
  let m1 := {| blocks := <[q := sptr_header_base.acquire1 hq]> (blocks (mem w));
               calls := calls (mem w) |} in
  q <> 0 ->
  blocks (mem w) !! q = Some hq ->
  (p = 0 ->
   atomic_shared_ptr.store_copy env desired w
   = Some {| cptr_hdr_ := counted_ptr.make_word 0 q; mem := m1 |})
  /\ (p <> 0 -> p <> q -> forall hp, blocks (mem w) !! p = Some hp ->
      let r := sptr_header_base.release env
                 (paired_counter.make (counted_ptr.get_ctr (cptr_hdr_ w)) 1) hp in
      atomic_shared_ptr.store_copy env desired w
      = Some {| cptr_hdr_ := counted_ptr.make_word 0 q;
                mem := {| blocks := <[p := snd r]> (blocks m1);
                          calls := calls (mem w) ++ map (pair p) (fst r) |} |}).
Proof.
  intros q p m1 Hq Hb.
  assert (Hg : counted_ptr.get_ptr (counted_ptr.make_word 0 q) = q)
    by apply get_ptr_make_word_0, get_ptr_range.
  unfold atomic_shared_ptr.store_copy, shared_ptr.copy, update_block.
  fold q. rewrite Hg, (proj2 (Z.eqb_neq _ _) Hq). cbn [negb].
  rewrite Hb. cbn [mbind option_bind]. fold m1.
  unfold atomic_shared_ptr.store, atomic_counted_ptr.exchange, atomic.exchange,
    shared_ptr.destroy, shared_ptr._release, set_cell, set_mem, call_block.
  cbn [mem cptr_hdr_]. fold p. split.
  - intros ->. reflexivity.
  - intros Hp Hpq hp Hbp. cbv zeta. rewrite (proj2 (Z.eqb_neq _ _) Hp). cbn [negb].
    assert (Hl : blocks m1 !! p = Some hp)
      by (unfold m1; cbn [blocks]; now rewrite lookup_insert_ne by congruence).
    rewrite Hl. reflexivity.
Qed.

Lemma store_copy_hands_over_witness :
  let hq := sptr_header_base.make 77 in
  let w := {| cptr_hdr_ := counted_ptr.make_word 0 0;
              mem := {| blocks := {[ 4096 := hq ]}; calls := [] |} |} in
  atomic_shared_ptr.store_copy quiet (counted_ptr.make_word 0 4096) w
  = Some {| cptr_hdr_ := counted_ptr.make_word 0
                           (counted_ptr.get_ptr (counted_ptr.make_word 0 4096));
            mem := {| blocks :=
                        <[counted_ptr.get_ptr (counted_ptr.make_word 0 4096)
                          := sptr_header_base.acquire1 hq]> (blocks (mem w));
                      calls := calls (mem w) |} |}.
Proof.
  intros hq w.
  refine (proj1 (store_copy_hands_over quiet (counted_ptr.make_word 0 4096) w hq _ _) _).
  - vm_compute. discriminate.
  - reflexivity.
  - reflexivity.
Defined.
